(** * kz-io/warn: the warning classes and the WarningManager

    A shallow embedding of [src/exceptions/*.ts] (the ten warning classes and
    their message templates) and of [src/warning_manager.ts] (the collector),
    followed by the properties its specification states about them.

    JavaScript strings are modelled as [string] (sequences of 8-bit
    characters); objects used as maps and [Map]s as [gmap]; arrays as lists
    living in a store of array objects, so that aliasing is visible. *)

From Stdlib Require Import Ascii String NArith.
From stdpp Require Import gmap strings list fin_maps.

(** ** JavaScript string primitives used by the sources *)

Module JS.

(** [!!s] for a string: the empty string is the only falsy one. *)
Definition truthy (s : string) : bool :=
  match s with
  | EmptyString => false
  | String _ _ => true
  end.

(** [!!x] for an optional string property ([undefined] is falsy). *)
Definition truthy_opt (x : option string) : bool :=
  match x with
  | None => false
  | Some s => truthy s
  end.

(** [a || b] on strings. *)
Definition or_else (a b : string) : string :=
  if truthy a then a else b.

(** [s.startsWith(t)]. *)
Fixpoint startsWith (s t : string) {struct t} : bool :=
  match t, s with
  | EmptyString, _ => true
  | String b t', String a s' => if decide (a = b) then startsWith s' t' else false
  | String _ _, EmptyString => false
  end.

(** [s.includes(t)]: [t] occurs in [s] at some position. *)
Fixpoint includes (s t : string) : bool :=
  startsWith s t ||
  match s with
  | EmptyString => false
  | String _ s' => includes s' t
  end.

(** [s.charAt(0)]: the first character as a string, [''] when there is none. *)
Definition charAt0 (s : string) : string :=
  match s with
  | EmptyString => EmptyString
  | String a _ => String a EmptyString
  end.

Definition ascii_toLowerCase (a : ascii) : ascii :=
  let n := N_of_ascii a in
  if ((65 <=? n) && (n <=? 90))%N then ascii_of_N (n + 32) else a.

(** [s.toLowerCase()]; characters are 8-bit, [A]-[Z] become [a]-[z] and the
    others are left alone. *)
Fixpoint toLowerCase (s : string) : string :=
  match s with
  | EmptyString => EmptyString
  | String a s' => String (ascii_toLowerCase a) (toLowerCase s')
  end.

End JS.

(** ** The warning classes ([src/exceptions]) *)

(** A data object: own properties with string values. *)
Abbreviation Data := (gmap string string).

(** [Constructor<Warning>]: the ten classes the package exports, and classes
    a caller derives from them with an empty body, as the tests do with
    [class CustomWarning extends Warning {}].  Classes are compared by
    identity in JavaScript, so a derived class carries an identifier next to
    its name. *)
Inductive Constructor : Type :=
  | Warning
  | OSWarning
  | ProcessWarning
  | ConnectionWarning
  | DiskWarning
  | MemoryWarning
  | FutureWarning
  | StabilityWarning
  | DeprecationWarning
  | PendingDeprecationWarning
  | Subclass (id : nat) (cname : string) (parent : Constructor).

#[global] Instance Constructor_eq_dec : EqDecision Constructor.
Proof. solve_decision. Defined.

(** The [extends] clause of each class; [Warning] extends [Exception], which
    lies outside the hierarchy of warnings. *)
Definition extends (c : Constructor) : option Constructor :=
  match c with
  | Warning => None
  | OSWarning => Some Warning
  | ProcessWarning => Some OSWarning
  | ConnectionWarning => Some OSWarning
  | DiskWarning => Some OSWarning
  | MemoryWarning => Some OSWarning
  | FutureWarning => Some Warning
  | StabilityWarning => Some FutureWarning
  | DeprecationWarning => Some FutureWarning
  | PendingDeprecationWarning => Some FutureWarning
  | Subclass _ _ p => Some p
  end.

(** The prototype chain of a class, from the class itself up to [Warning]. *)
Fixpoint prototype_chain (c : Constructor) : list Constructor :=
  match c with
  | Warning => [Warning]
  | OSWarning => [OSWarning; Warning]
  | ProcessWarning => [ProcessWarning; OSWarning; Warning]
  | ConnectionWarning => [ConnectionWarning; OSWarning; Warning]
  | DiskWarning => [DiskWarning; OSWarning; Warning]
  | MemoryWarning => [MemoryWarning; OSWarning; Warning]
  | FutureWarning => [FutureWarning; Warning]
  | StabilityWarning => [StabilityWarning; FutureWarning; Warning]
  | DeprecationWarning => [DeprecationWarning; FutureWarning; Warning]
  | PendingDeprecationWarning => [PendingDeprecationWarning; FutureWarning; Warning]
  | Subclass _ _ p => c :: prototype_chain p
  end.

(** [type.name]. *)
Definition class_name (c : Constructor) : string :=
  match c with
  | Warning => "Warning"
  | OSWarning => "OSWarning"
  | ProcessWarning => "ProcessWarning"
  | ConnectionWarning => "ConnectionWarning"
  | DiskWarning => "DiskWarning"
  | MemoryWarning => "MemoryWarning"
  | FutureWarning => "FutureWarning"
  | StabilityWarning => "StabilityWarning"
  | DeprecationWarning => "DeprecationWarning"
  | PendingDeprecationWarning => "PendingDeprecationWarning"
  | Subclass _ n _ => n
  end.

(** The [code] field initialiser of each class; a derived class with an empty
    body keeps the one of its parent. *)
Fixpoint class_code (c : Constructor) : N :=
  match c with
  | Warning => 0x48
  | OSWarning => 0x49
  | MemoryWarning => 0x4a
  | DiskWarning => 0x4b
  | ProcessWarning => 0x4c
  | ConnectionWarning => 0x4d
  | FutureWarning => 0x58
  | StabilityWarning => 0x59
  | PendingDeprecationWarning => 0x5a
  | DeprecationWarning => 0x5b
  | Subclass _ _ p => class_code p
  end.

(** A warning instance. [class] is the class it was created with [new]. *)
Record WarningRecord : Type := mkWarning {
  class : Constructor;
  name : string;
  message : string;
  code : N;
  data : option Data;
}.

#[global] Instance WarningRecord_eq_dec : EqDecision WarningRecord.
Proof. solve_decision. Defined.

(** [w instanceof type]: [type] lies on the prototype chain of [w]. *)
Definition instanceof (w : WarningRecord) (type : Constructor) : bool :=
  bool_decide (type ∈ prototype_chain (class w)).

(** *** Message templates of the three classes that build a message from data *)

Module StabilityWarningImpl.

Definition DEFAULT_MESSAGE : string :=
  "A feature is unstable and should not be used in production environments.".

Definition createMessageFromData (data : Data) : string :=
  let aboutUrl := data !! "aboutUrl" in
  let featureName := data !! "featureName" in
  let featureType := data !! "featureType" in
  let vowels := "aeiou" in
  let first :=
    JS.or_else (from_option (λ t, JS.toLowerCase (JS.charAt0 t)) "" featureType) "" in
  let A := if JS.includes vowels first then "An" else "A" in
  let aboutUrl_ := default "" aboutUrl in
  let featureName_ := default "" featureName in
  let featureType_ := default "" featureType in
  if JS.truthy_opt aboutUrl && JS.truthy_opt featureName && JS.truthy_opt featureType then
    A +:+ " " +:+ featureType_ +:+ ", " +:+ featureName_ +:+
    ", is unstable and should not be used in production environments. Read more at " +:+
    aboutUrl_ +:+ "."
  else if JS.truthy_opt aboutUrl && JS.truthy_opt featureName then
    "A feature, " +:+ featureName_ +:+
    ", is unstable and should not be used in production environments. Read more at " +:+
    aboutUrl_ +:+ "."
  else if JS.truthy_opt aboutUrl && JS.truthy_opt featureType then
    A +:+ " " +:+ featureType_ +:+
    " is unstable and should not be used in production environments. Read more at " +:+
    aboutUrl_ +:+ "."
  else if JS.truthy_opt featureName && JS.truthy_opt featureType then
    A +:+ " " +:+ featureType_ +:+ ", " +:+ featureName_ +:+
    ", is unstable and should not be used in production environments."
  else if JS.truthy_opt featureName then
    "A feature, " +:+ featureName_ +:+
    ", is unstable and should not be used in production environments."
  else if JS.truthy_opt featureType then
    A +:+ " " +:+ featureType_ +:+
    " is unstable and should not be used in production environments."
  else if JS.truthy_opt aboutUrl then
    DEFAULT_MESSAGE +:+ " Read more at " +:+ aboutUrl_ +:+ "."
  else
    DEFAULT_MESSAGE.

End StabilityWarningImpl.

Module PendingDeprecationWarningImpl.

Definition DEFAULT_MESSAGE : string := "A feature is pending deprecation.".

Definition createMessageFromData (data : Data) : string :=
  let aboutUrl := data !! "aboutUrl" in
  let featureName := data !! "featureName" in
  let featureType := data !! "featureType" in
  let vowels := "aeiou" in
  let first :=
    JS.or_else (from_option (λ t, JS.toLowerCase (JS.charAt0 t)) "" featureType) "" in
  let A := if JS.includes vowels first then "An" else "A" in
  let aboutUrl_ := default "" aboutUrl in
  let featureName_ := default "" featureName in
  let featureType_ := default "" featureType in
  if JS.truthy_opt aboutUrl && JS.truthy_opt featureName && JS.truthy_opt featureType then
    A +:+ " " +:+ featureType_ +:+ ", " +:+ featureName_ +:+
    ", is pending deprecation. Read more at " +:+ aboutUrl_ +:+ "."
  else if JS.truthy_opt aboutUrl && JS.truthy_opt featureName then
    "A feature, " +:+ featureName_ +:+
    ", is pending deprecation. Read more at " +:+ aboutUrl_ +:+ "."
  else if JS.truthy_opt aboutUrl && JS.truthy_opt featureType then
    A +:+ " " +:+ featureType_ +:+
    " is pending deprecation. Read more at " +:+ aboutUrl_ +:+ "."
  else if JS.truthy_opt featureName && JS.truthy_opt featureType then
    A +:+ " " +:+ featureType_ +:+ ", " +:+ featureName_ +:+
    ", is pending deprecation."
  else if JS.truthy_opt featureName then
    "A feature, " +:+ featureName_ +:+ ", is pending deprecation."
  else if JS.truthy_opt featureType then
    A +:+ " " +:+ featureType_ +:+ " is pending deprecation."
  else if JS.truthy_opt aboutUrl then
    DEFAULT_MESSAGE +:+ " Read more at " +:+ aboutUrl_ +:+ "."
  else
    DEFAULT_MESSAGE.

End PendingDeprecationWarningImpl.

Module DeprecationWarningImpl.

Definition DEFAULT_MESSAGE : string := "A feature has been deprecated.".

Definition createMessageFromData (data : Data) : string :=
  let aboutUrl := data !! "aboutUrl" in
  let alternativeFeatureName := data !! "alternativeFeatureName" in
  let featureName := data !! "featureName" in
  let featureType := data !! "featureType" in
  let vowels := "aeiou" in
  let first :=
    JS.or_else (from_option (λ t, JS.toLowerCase (JS.charAt0 t)) "" featureType) "" in
  let A := if JS.includes vowels first then "An" else "A" in
  let U := JS.truthy_opt aboutUrl in
  let L := JS.truthy_opt alternativeFeatureName in
  let N := JS.truthy_opt featureName in
  let T := JS.truthy_opt featureType in
  let aboutUrl_ := default "" aboutUrl in
  let alternativeFeatureName_ := default "" alternativeFeatureName in
  let featureName_ := default "" featureName in
  let featureType_ := default "" featureType in
  if U && L && N && T then
    A +:+ " " +:+ featureType_ +:+ ", " +:+ featureName_ +:+
    ", has been deprecated. Use " +:+ alternativeFeatureName_ +:+
    " instead. Read more at " +:+ aboutUrl_ +:+ "."
  else if U && N && T then
    A +:+ " " +:+ featureType_ +:+ ", " +:+ featureName_ +:+
    ", has been deprecated. Read more at " +:+ aboutUrl_ +:+ "."
  else if U && L && N then
    "A feature, " +:+ featureName_ +:+ ", has been deprecated. Use " +:+
    alternativeFeatureName_ +:+ " instead. Read more at " +:+ aboutUrl_ +:+ "."
  else if U && L && T then
    A +:+ " " +:+ featureType_ +:+ " has been deprecated. Use " +:+
    alternativeFeatureName_ +:+ " instead. Read more at " +:+ aboutUrl_ +:+ "."
  else if L && N && T then
    A +:+ " " +:+ featureType_ +:+ ", " +:+ featureName_ +:+
    ", has been deprecated. Use " +:+ alternativeFeatureName_ +:+ " instead."
  else if U && N then
    "A feature, " +:+ featureName_ +:+ ", has been deprecated. Read more at " +:+
    aboutUrl_ +:+ "."
  else if U && L then
    "A feature has been deprecated. Use " +:+ alternativeFeatureName_ +:+
    " instead. Read more at " +:+ aboutUrl_ +:+ "."
  else if U && T then
    A +:+ " " +:+ featureType_ +:+ " has been deprecated. Read more at " +:+
    aboutUrl_ +:+ "."
  else if L && N then
    "A feature, " +:+ featureName_ +:+ ", has been deprecated. Use " +:+
    alternativeFeatureName_ +:+ " instead."
  else if L && T then
    A +:+ " " +:+ featureType_ +:+ " has been deprecated. Use " +:+
    alternativeFeatureName_ +:+ " instead."
  else if N && T then
    A +:+ " " +:+ featureType_ +:+ ", " +:+ featureName_ +:+ ", has been deprecated."
  else if N then
    "A feature, " +:+ featureName_ +:+ ", has been deprecated."
  else if T then
    A +:+ " " +:+ featureType_ +:+ " has been deprecated."
  else if U then
    DEFAULT_MESSAGE +:+ " Read more at " +:+ aboutUrl_ +:+ "."
  else if L then
    "A feature has been deprecated. Use " +:+ alternativeFeatureName_ +:+ " instead."
  else
    DEFAULT_MESSAGE.

End DeprecationWarningImpl.

(** *** Construction *)

(** The first argument of a constructor: a message or a data object. *)
Inductive MessageOrData : Type :=
  | ArgMessage (message : string)
  | ArgData (data : Data).

(** The constructor body shared by [StabilityWarning], [DeprecationWarning]
    and [PendingDeprecationWarning]: what it hands to [super(message, data)].
    An argument left out (or [undefined]) takes its default. *)
Definition future_constructor (DEFAULT_MESSAGE : string)
    (createMessageFromData : Data → string)
    (messageOrData : option MessageOrData) (data : option Data) : string * Data :=
  let messageOrData := default (ArgMessage DEFAULT_MESSAGE) messageOrData in
  let data := default ∅ data in
  let '(message, data) :=
    match messageOrData with
    | ArgMessage m => (m, data)
    | ArgData d => (createMessageFromData d, d)
    end in
  let message := JS.or_else message DEFAULT_MESSAGE in
  (message, data).

(** The constructor a class runs: [StabilityWarning], [DeprecationWarning] and
    [PendingDeprecationWarning] declare one (given here by its default message
    and its template); a class derived with an empty body runs its parent's;
    the other seven classes inherit the constructor of [Exception]. *)
Fixpoint constructor_of (c : Constructor) : option (string * (Data → string)) :=
  match c with
  | StabilityWarning =>
      Some (StabilityWarningImpl.DEFAULT_MESSAGE,
            StabilityWarningImpl.createMessageFromData)
  | DeprecationWarning =>
      Some (DeprecationWarningImpl.DEFAULT_MESSAGE,
            DeprecationWarningImpl.createMessageFromData)
  | PendingDeprecationWarning =>
      Some (PendingDeprecationWarningImpl.DEFAULT_MESSAGE,
            PendingDeprecationWarningImpl.createMessageFromData)
  | Subclass _ _ p => constructor_of p
  | _ => None
  end.

(** Modelled from the spec: the [Exception] base class comes from the package
    [@kz/common-exceptions] and is not among the sources.  Following the
    spec's WarningRecord (kind name, message, code, optional data, immutable
    once constructed) it stores the message it is given, the name of the class
    instantiated and the data; as the test suites observe, an empty data
    object is stored as [undefined].  The [code] is the field initialiser of
    the class, which runs after [super] returns. *)
Definition Exception (c : Constructor) (message : string) (data : option Data)
    : WarningRecord :=
  {| class := c;
     name := class_name c;
     message := message;
     code := class_code c;
     data := match data with
             | Some d => if decide (d = ∅) then None else Some d
             | None => None
             end |}.

(** [new type(messageOrData, data)].  The inherited constructor of
    [Exception] has the signature [(message: string, data?: T)]; other
    argument shapes do not type-check for it and give [None]. *)
Definition new (type : Constructor)
    (messageOrData : option MessageOrData) (data : option Data)
    : option WarningRecord :=
  match constructor_of type with
  | Some (DEFAULT_MESSAGE, createMessageFromData) =>
      let '(message, data) :=
        future_constructor DEFAULT_MESSAGE createMessageFromData messageOrData data in
      Some (Exception type message (Some data))
  | None =>
      match messageOrData with
      | Some (ArgMessage message) => Some (Exception type message data)
      | _ => None
      end
  end.

(** [new type(message)], the call the manager makes. *)
Definition new_message (type : Constructor) (message : string) : WarningRecord :=
  match constructor_of type with
  | Some (DEFAULT_MESSAGE, createMessageFromData) =>
      let '(message, data) :=
        future_constructor DEFAULT_MESSAGE createMessageFromData
          (Some (ArgMessage message)) None in
      Exception type message (Some data)
  | None => Exception type message None
  end.

(** ** The store and the manager object *)

(** Observers are object references; so are arrays. *)
Abbreviation Observer := nat.
Abbreviation loc := nat.

(** A [WarningManager] together with the part of the JavaScript store it
    touches: [arrays] holds every [Warning[]] array object allocated so far,
    [warnings] is the reference held in the field [this.warnings],
    [observers] and [completed] are the state of the observable base class,
    and [calls] logs each call [o.next(w)] made so far, oldest first. *)
Record State : Type := mkState {
  arrays : gmap loc (list WarningRecord);
  warnings : loc;
  observers : gset Observer;
  completed : bool;
  calls : list (Observer * WarningRecord);
}.

Definition set_arrays (f : gmap loc (list WarningRecord) → gmap loc (list WarningRecord))
    (σ : State) : State :=
  mkState (f (arrays σ)) (warnings σ) (observers σ) (completed σ) (calls σ).

(** Allocates a new array object holding [a]. *)
Definition alloc (a : list WarningRecord) (σ : State) : loc * State :=
  let r := fresh (dom (arrays σ)) in
  (r, set_arrays <[r := a]> σ).

(** The contents of the array behind [this.warnings]. *)
Definition stored (σ : State) : list WarningRecord :=
  default [] (arrays σ !! warnings σ).

(** The records handed to [o.next] so far, oldest first. *)
Definition next_calls (o : Observer) (σ : State) : list WarningRecord :=
  (filter (λ c, c.1 = o) (calls σ)).*2.

(** The field [this.warnings] refers to an array of the store. *)
Definition wf (σ : State) : Prop := is_Some (arrays σ !! warnings σ).

(** ** The observable base class *)

Module TBaseObservable.

(** Modelled from the spec: [TBaseObservable] comes from the package
    [@kz/observe] and is not among the sources.  The spec gives it a set of
    subscribed observers and a [completed] flag; a subscription made after
    completion is inert ("existing and new observers are never called
    again"). *)
Definition subscribe (o : Observer) (σ : State) : State :=
  if completed σ then σ
  else mkState (arrays σ) (warnings σ) ({[o]} ∪ observers σ) (completed σ) (calls σ).

(** Modelled from the spec: the base class's [unsubscribe], which detaches
    one observer. *)
Definition unsubscribe (o : Observer) (σ : State) : State :=
  mkState (arrays σ) (warnings σ) (observers σ ∖ {[o]}) (completed σ) (calls σ).

(** Modelled from the spec: the base class's [publish], which calls [next]
    once on every observer currently subscribed, with no guard on
    [completed]. *)
Definition publish (w : WarningRecord) (σ : State) : State :=
  mkState (arrays σ) (warnings σ) (observers σ) (completed σ)
          (calls σ ++ ((λ o, (o, w)) <$> elements (observers σ))).

(** Modelled from the spec: the base class's [complete], which unsubscribes
    every observer and sets [completed]. *)
Definition complete (σ : State) : State :=
  mkState (arrays σ) (warnings σ) ∅ true (calls σ).

End TBaseObservable.

(** ** The manager ([src/warning_manager.ts]) *)

(** The first argument of [warn]. *)
Inductive WarnArg : Type :=
  | AWarning (warning : WarningRecord)
  | AMessage (message : string).

(** The second argument of [warn]: left out or [undefined]; a falsy value
    other than [undefined] (such as [null]); or a class. *)
Inductive TypeArg : Type :=
  | TUndefined
  | TFalsy
  | TClass (type : Constructor).

(** The argument of [getWarnings]: none (or any falsy value that is not a
    string), a string, or a class. *)
Inductive Filter : Type :=
  | FNone
  | FString (msg : string)
  | FClass (type : Constructor).

Module WarningManager.

(** [new WarningManager()]: the field initialiser allocates an empty array. *)
Definition create : State :=
  mkState {[ 0 := [] ]} 0 ∅ false [].

(** The getter [length]. *)
Definition length (σ : State) : nat := List.length (stored σ).

(** [warnings.push(warning)] on the array behind [this.warnings], in place,
    then [this.publish(warning)]. *)
Definition add (warning : WarningRecord) (σ : State) : State :=
  let σ := set_arrays (alter (λ a, a ++ [warning]) (warnings σ)) σ in
  TBaseObservable.publish warning σ.

(** The default value [type = Warning] replaces [undefined] only. *)
Definition warn (warning : WarnArg) (type : TypeArg) (σ : State) : State :=
  let type := match type with TUndefined => TClass Warning | _ => type end in
  match warning with
  | AMessage message =>
      match type with
      | TClass type =>
          let warningInstance := new_message type message in
          add warningInstance σ
      | _ => σ
      end
  | AWarning warning => add warning σ
  end.

(** [filter] and the spread [[...warnings]] both allocate a new array. *)
Definition getWarnings (type : Filter) (σ : State) : loc * State :=
  let warnings := stored σ in
  match type with
  | FString type => alloc (filter (λ warning, JS.includes (message warning) type) warnings) σ
  | FClass type => alloc (filter (λ warning, instanceof warning type) warnings) σ
  | FNone => alloc warnings σ
  end.

(** The body of the [forEach] callback of [groupWarnings]. *)
Definition group_step (grouped : gmap string (list WarningRecord))
    (warning : WarningRecord) : gmap string (list WarningRecord) :=
  let name := name warning in
  let grouped :=
    if bool_decide (is_Some (grouped !! name)) then grouped
    else <[name := []]> grouped in
  alter (λ a, a ++ [warning]) name grouped.

(** [groupWarnings()]: takes a copy with [this.getWarnings()] and files each
    record under its [name] in a new [Map]. *)
Definition groupWarnings (σ : State)
    : gmap string (list WarningRecord) * State :=
  let '(r, σ) := getWarnings FNone σ in
  let warnings := default [] (arrays σ !! r) in
  (foldl group_step ∅ warnings, σ).

(** [this.warnings = []]: the field is pointed at a new, empty array. *)
Definition clear (σ : State) : State :=
  let '(r, σ) := alloc [] σ in
  mkState (arrays σ) r (observers σ) (completed σ) (calls σ).

(** [complete()]: [super.complete()], then [this.clear()]. *)
Definition complete (σ : State) : State :=
  clear (TBaseObservable.complete σ).

End WarningManager.

(** *** Sequences of calls on one manager *)

Inductive Op : Type :=
  | Warn (warning : WarnArg) (type : TypeArg)
  | GetWarnings (type : Filter)
  | GroupWarnings
  | Clear
  | Complete
  | Subscribe (o : Observer)
  | Unsubscribe (o : Observer).

Definition step (σ : State) (op : Op) : State :=
  match op with
  | Warn warning type => WarningManager.warn warning type σ
  | GetWarnings type => (WarningManager.getWarnings type σ).2
  | GroupWarnings => (WarningManager.groupWarnings σ).2
  | Clear => WarningManager.clear σ
  | Complete => WarningManager.complete σ
  | Subscribe o => TBaseObservable.subscribe o σ
  | Unsubscribe o => TBaseObservable.unsubscribe o σ
  end.

Definition run (ops : list Op) (σ : State) : State := foldl step σ ops.

(** A record call that is not the defensive no-op: an instance, or a message
    with a class (given, or the default [Warning]). *)
Definition well_formed_call (warning : WarnArg) (type : TypeArg) : bool :=
  match warning, type with
  | AMessage _, TFalsy => false
  | _, _ => true
  end.

(** The record such a call appends. *)
Definition recorded (warning : WarnArg) (type : TypeArg) : WarningRecord :=
  match warning with
  | AWarning w => w
  | AMessage m =>
      new_message (match type with TClass c => c | _ => Warning end) m
  end.

(** ** Vocabulary of the specification *)

(** The lowercased character is one of [aeiou]. *)
Definition is_vowel (a : ascii) : bool :=
  bool_decide (a ∈ ["a"; "e"; "i"; "o"; "u"]%char).

(** The lowercased first character of [s] is a vowel. *)
Definition starts_with_vowel (s : string) : bool :=
  match s with
  | String a _ => is_vowel (JS.ascii_toLowerCase a)
  | EmptyString => false
  end.

(** [s] occurs in [t] as a substring, character for character. *)
Definition contains (t s : string) : Prop :=
  ∃ pre post, t = pre +:+ s +:+ post.

(** [c] is the variant [d] or a descendant of it: [d] is reached from [c]
    through [extends] clauses. *)
Inductive is_a : Constructor → Constructor → Prop :=
  | is_a_refl c : is_a c c
  | is_a_extends c p d : extends c = Some p → is_a p d → is_a c d.

(** The arguments a class accepts: any shape when it runs one of the three
    declared constructors, a message (with or without data) otherwise. *)
Definition valid_arguments (type : Constructor)
    (messageOrData : option MessageOrData) : bool :=
  match constructor_of type, messageOrData with
  | Some _, _ => true
  | None, Some (ArgMessage _) => true
  | None, _ => false
  end.

(** A run of record calls. *)
Definition warn_ops (cs : list (WarnArg * TypeArg)) : list Op :=
  (λ c, Warn c.1 c.2) <$> cs.

(** The completed state of the life cycle: the flag is set and nobody is
    subscribed. *)
Definition detached (σ : State) : Prop :=
  completed σ = true ∧ observers σ = ∅.

(** [r] is an array of the store holding [a] that the manager does not write
    to: it is not the array behind [this.warnings]. *)
Definition snapshot (r : loc) (a : list WarningRecord) (σ : State) : Prop :=
  arrays σ !! r = Some a ∧ r ≠ warnings σ ∧ wf σ.

(** The arrays of a grouping, one after the other. *)
Definition groups (grouped : gmap string (list WarningRecord))
    : list (list WarningRecord) :=
  (map_to_list grouped).*2.

(** A manager with one observer and three records, as in the scenario of the
    specification. *)
Definition example_manager : State :=
  run [Subscribe 5;
       Warn (AMessage "disk low") (TClass DiskWarning);
       Warn (AMessage "slow") TUndefined;
       Warn (AMessage "disk low again") (TClass DiskWarning)]
      WarningManager.create.

(** *** Vocabulary for the further properties *)

(** The article put before a feature type. *)
Definition article (featureType : string) : string :=
  if starts_with_vowel featureType then "An" else "A".

(** An optional clause of a message: present when the property is truthy. *)
Definition clause (before : string) (x : option string) (after : string) : string :=
  match x with
  | Some s => if JS.truthy s then before +:+ s +:+ after else ""
  | None => ""
  end.

(** What a message is about: the feature type with its article, or
    "A feature" when there is none. *)
Definition subject (d : Data) : string :=
  match d !! "featureType" with
  | Some t => if JS.truthy t then article t +:+ " " +:+ t else "A feature"
  | None => "A feature"
  end.

(** A message put together clause by clause: the subject, the feature name
    between commas, the verb phrase, the alternative (for the classes that
    name one) and the link. *)
Definition composed (verb : string) (alternative : bool) (d : Data) : string :=
  subject d +:+ clause ", " (d !! "featureName") "," +:+ verb +:+
  (if alternative
   then clause " Use " (d !! "alternativeFeatureName") " instead." else "") +:+
  clause " Read more at " (d !! "aboutUrl") ".".

(** One of the ten classes the package exports. *)
Definition exported (c : Constructor) : bool :=
  match c with
  | Subclass _ _ _ => false
  | _ => true
  end.

(** Whether [getWarnings(type)] keeps a record. *)
Definition matches (type : Filter) (w : WarningRecord) : bool :=
  match type with
  | FNone => true
  | FString msg => JS.includes (message w) msg
  | FClass type => instanceof w type
  end.

(** The contents of the array that [getWarnings(type)] returns. *)
Definition query (type : Filter) (σ : State) : list WarningRecord :=
  let '(r, σ') := WarningManager.getWarnings type σ in
  default [] (arrays σ' !! r).

(** A manager holding a deprecation warning built from data, a disk warning
    and a plain warning. *)
Definition mixed_manager : State :=
  run [Warn (AWarning (Exception DeprecationWarning
                         "A function, foo, has been deprecated. Use bar instead."
                         (Some {[ "featureName" := "foo"; "featureType" := "function";
                                  "alternativeFeatureName" := "bar" ]})))
            TUndefined;
       Warn (AMessage "disk low") (TClass DiskWarning);
       Warn (AMessage "slow") TUndefined]
      WarningManager.create.

(** ** Strings *)

Section strings.
Implicit Types (s t : string) (a b : ascii).

Lemma startsWith_spec s t : JS.startsWith s t = true ↔ ∃ post, s = t +:+ post.
Proof.
  revert s; induction t as [|b t IH]; intros s; simpl.
  - split; [intros _; by exists s | done].
  - destruct s as [|a s].
    + split; [done | intros [post H]; discriminate H].
    + case_decide as E.
      * subst b. rewrite IH. split; intros [post H]; exists post.
        -- by rewrite H.
        -- by injection H.
      * split; [done | intros [post H]; injection H; congruence].
Qed.

Lemma includes_contains s t : JS.includes s t = true ↔ contains s t.
Proof.
  unfold contains. induction s as [|a s IH]; simpl.
  - rewrite orb_false_r, startsWith_spec. split.
    + intros [post H]. by exists "", post.
    + intros [pre [post H]]. destruct pre; [by exists post | discriminate H].
  - rewrite orb_true_iff, startsWith_spec, IH. split.
    + intros [[post H] | [pre [post H]]].
      * by exists "", post.
      * exists (String a pre), post. by rewrite H.
    + intros [[|b pre] [post H]].
      * left. by exists post.
      * right. exists pre, post. by injection H.
Qed.

Lemma contains_empty t : contains t "".
Proof. by exists ""%string, t. Qed.

Lemma includes_vowels b : JS.includes "aeiou" (String b "") = is_vowel b.
Proof.
  destruct b as [[] [] [] [] [] [] [] []]; vm_compute; reflexivity.
Qed.

Lemma or_else_truthy s t : JS.truthy s = true → JS.or_else s t = s.
Proof. unfold JS.or_else. by intros ->. Qed.

Lemma or_else_message s t : s ≠ ""%string → JS.or_else s t = s.
Proof. by destruct s. Qed.

End strings.

(** ** The classes *)

Lemma prototype_chain_unfold c :
  prototype_chain c
  = c :: match extends c with Some p => prototype_chain p | None => [] end.
Proof. by destruct c. Qed.

Lemma prototype_chain_is_a c d : d ∈ prototype_chain c ↔ is_a c d.
Proof.
  split.
  - revert d. induction c; intros d Hd; simpl in Hd;
      repeat (apply elem_of_cons in Hd as [->|Hd]; [eauto 4 using is_a|]);
      try by apply elem_of_nil in Hd.
    eapply is_a_extends; [done|]. by apply IHc.
  - induction 1 as [c|c p d Hp _ IH].
    + rewrite prototype_chain_unfold. apply elem_of_cons; by left.
    + rewrite prototype_chain_unfold, Hp. apply elem_of_cons; by right.
Qed.

Lemma instanceof_is_a w type : instanceof w type = true ↔ is_a (class w) type.
Proof.
  unfold instanceof. rewrite bool_decide_eq_true. apply prototype_chain_is_a.
Qed.

Lemma new_defined type messageOrData data :
  valid_arguments type messageOrData = true →
  ∃ msg data', new type messageOrData data = Some (Exception type msg data').
Proof.
  unfold valid_arguments, new.
  destruct (constructor_of type) as [[D f]|].
  - intros _. destruct (future_constructor D f messageOrData data); eauto.
  - destruct messageOrData as [[m|d]|]; [eauto|done|done].
Qed.

Lemma new_message_eq type msg :
  new type (Some (ArgMessage msg)) None = Some (new_message type msg).
Proof.
  unfold new, new_message. by destruct (constructor_of type) as [[D f]|].
Qed.

Lemma new_message_class type msg :
  class (new_message type msg) = type ∧
  name (new_message type msg) = class_name type.
Proof.
  unfold new_message. by destruct (constructor_of type) as [[D f]|].
Qed.

Lemma new_message_message type msg :
  message (new_message type msg)
  = match constructor_of type with
    | Some (DEFAULT_MESSAGE, _) => JS.or_else msg DEFAULT_MESSAGE
    | None => msg
    end.
Proof.
  unfold new_message. by destruct (constructor_of type) as [[D f]|].
Qed.

Lemma new_StabilityWarning_data d data :
  message <$> new StabilityWarning (Some (ArgData d)) data
  = Some (JS.or_else (StabilityWarningImpl.createMessageFromData d)
                     StabilityWarningImpl.DEFAULT_MESSAGE).
Proof. reflexivity. Qed.

Lemma article_eq (featureType : string) :
  JS.truthy featureType = true →
  (if JS.includes "aeiou"
        (JS.or_else (from_option (λ t, JS.toLowerCase (JS.charAt0 t)) "" (Some featureType)) "")
   then "An" else "A")%string
  = (if starts_with_vowel featureType then "An" else "A")%string.
Proof.
  destruct featureType as [|a ft]; [done|]. intros _.
  change (JS.or_else _ _) with (String (JS.ascii_toLowerCase a) "").
  by rewrite includes_vowels.
Qed.

Lemma stability_article (d : Data) ft :
  d !! "featureType" = Some ft → JS.truthy ft = true →
  ∃ tail, StabilityWarningImpl.createMessageFromData d =
    (if starts_with_vowel ft then "An" else "A") +:+ " " +:+ ft +:+ tail.
Proof.
  intros Hft Ht. unfold StabilityWarningImpl.createMessageFromData.
  cbv zeta. rewrite Hft, (article_eq _ Ht).
  cbn [JS.truthy_opt default]. rewrite Ht.
  destruct (JS.truthy_opt (d !! "aboutUrl")), (JS.truthy_opt (d !! "featureName"));
    cbn [andb]; eauto.
Qed.

Lemma stability_default (d : Data) :
  JS.truthy_opt (d !! "featureType") = false →
  JS.truthy_opt (d !! "featureName") = false →
  JS.truthy_opt (d !! "aboutUrl") = false →
  StabilityWarningImpl.createMessageFromData d = StabilityWarningImpl.DEFAULT_MESSAGE.
Proof.
  intros H1 H2 H3. unfold StabilityWarningImpl.createMessageFromData.
  cbv zeta. by rewrite H1, H2, H3.
Qed.

(** ** The store *)

Section store.
Implicit Types (σ : State) (w : WarningRecord) (o : Observer) (r : loc)
  (a b : list WarningRecord).

Lemma create_wf : wf WarningManager.create.
Proof. by exists []. Qed.

Lemma fresh_lookup σ : arrays σ !! fresh (dom (arrays σ)) = None.
Proof. apply not_elem_of_dom, is_fresh. Qed.

Lemma alloc_fresh a σ : arrays σ !! (alloc a σ).1 = None.
Proof. apply fresh_lookup. Qed.

Lemma alloc_lookup a σ : arrays (alloc a σ).2 !! (alloc a σ).1 = Some a.
Proof. apply lookup_insert_eq. Qed.

Lemma alloc_other a σ r :
  is_Some (arrays σ !! r) → arrays (alloc a σ).2 !! r = arrays σ !! r.
Proof.
  intros Hr. apply lookup_insert_ne. intros E.
  rewrite <- E, fresh_lookup in Hr. by destruct Hr.
Qed.

Lemma alloc_wf a σ : wf σ → wf (alloc a σ).2.
Proof.
  intros H. unfold wf. change (warnings (alloc a σ).2) with (warnings σ).
  by rewrite alloc_other.
Qed.

Lemma add_stored w σ : wf σ → stored (WarningManager.add w σ) = stored σ ++ [w].
Proof.
  intros [a Ha]. unfold stored; simpl. by rewrite lookup_alter_eq, Ha.
Qed.

Lemma add_other w σ r :
  r ≠ warnings σ → arrays (WarningManager.add w σ) !! r = arrays σ !! r.
Proof. intros H. simpl. by apply lookup_alter_ne. Qed.

Lemma add_wf w σ : wf σ → wf (WarningManager.add w σ).
Proof.
  intros [a Ha]. unfold wf; simpl. rewrite lookup_alter_eq, Ha. by eexists.
Qed.

Lemma warn_cases warning type σ :
  WarningManager.warn warning type σ =
  if well_formed_call warning type
  then WarningManager.add (recorded warning type) σ else σ.
Proof. by destruct warning, type. Qed.

Lemma clear_stored σ : stored (WarningManager.clear σ) = [].
Proof. unfold stored; simpl. by rewrite lookup_insert_eq. Qed.

Lemma clear_wf σ : wf (WarningManager.clear σ).
Proof. unfold wf; simpl. rewrite lookup_insert_eq. by eexists. Qed.

Lemma clear_other σ r :
  is_Some (arrays σ !! r) → arrays (WarningManager.clear σ) !! r = arrays σ !! r.
Proof. apply (alloc_other [] σ r). Qed.

Lemma getWarnings_alloc type σ :
  ∃ a, WarningManager.getWarnings type σ = alloc a σ.
Proof. destruct type; simpl; eauto. Qed.

Lemma groupWarnings_state σ :
  (WarningManager.groupWarnings σ).2 = (alloc (stored σ) σ).2.
Proof. reflexivity. Qed.

Lemma groupWarnings_result σ :
  (WarningManager.groupWarnings σ).1 = foldl WarningManager.group_step ∅ (stored σ).
Proof.
  unfold WarningManager.groupWarnings; simpl. by rewrite lookup_insert_eq.
Qed.

Lemma step_wf σ op : wf σ → wf (step σ op).
Proof.
  intros H. destruct op as [warning type|type| | | |o|o]; cbn [step].
  - rewrite warn_cases. destruct (well_formed_call _ _); [by apply add_wf|done].
  - destruct (getWarnings_alloc type σ) as [a ->]. by apply alloc_wf.
  - rewrite groupWarnings_state. by apply alloc_wf.
  - apply clear_wf.
  - apply clear_wf.
  - unfold TBaseObservable.subscribe. by destruct (completed σ).
  - done.
Qed.

Lemma run_wf ops σ : wf σ → wf (run ops σ).
Proof.
  revert σ. induction ops as [|op ops IH]; intros σ H; [done|].
  apply IH, step_wf, H.
Qed.

(** Every state a new manager can reach is well formed. *)
Lemma reachable_wf ops : wf (run ops WarningManager.create).
Proof. apply run_wf, create_wf. Qed.

Lemma run_warn_stored cs σ :
  wf σ → Forall (λ c, well_formed_call c.1 c.2 = true) cs →
  stored (run (warn_ops cs) σ) = stored σ ++ ((λ c, recorded c.1 c.2) <$> cs).
Proof.
  intros Hwf Hcs. revert σ Hwf.
  induction Hcs as [|[a t] cs Hc Hcs IH]; intros σ Hwf; simpl.
  - by rewrite app_nil_r.
  - simpl in Hc. rewrite warn_cases, Hc.
    rewrite IH by (by apply add_wf). rewrite add_stored by done.
    by rewrite <- app_assoc.
Qed.

(** *** Arrays handed out earlier *)

Lemma alloc_snapshot b σ : wf σ → snapshot (alloc b σ).1 b (alloc b σ).2.
Proof.
  intros Hwf. split; [apply alloc_lookup|]. split; [|by apply alloc_wf].
  intros E. destruct Hwf as [x Hx].
  change (warnings (alloc b σ).2) with (warnings σ) in E.
  by rewrite <- E, alloc_fresh in Hx.
Qed.

Lemma alloc_keeps_snapshot r a b σ : snapshot r a σ → snapshot r a (alloc b σ).2.
Proof.
  intros (Hr & Hne & Hwf). split; [|split; [done|by apply alloc_wf]].
  rewrite alloc_other; [done|by eexists].
Qed.

Lemma clear_keeps_snapshot r a σ :
  snapshot r a σ → snapshot r a (WarningManager.clear σ).
Proof.
  intros (Hr & Hne & Hwf). split; [|split; [|apply clear_wf]].
  - rewrite clear_other; [done|by eexists].
  - simpl. intros ->. by rewrite fresh_lookup in Hr.
Qed.

Lemma step_snapshot r a σ op : snapshot r a σ → snapshot r a (step σ op).
Proof.
  intros H. destruct op as [warning type|type| | | |o|o]; cbn [step].
  - rewrite warn_cases. destruct (well_formed_call _ _); [|done].
    destruct H as (Hr & Hne & Hwf). split; [|split; [done|by apply add_wf]].
    by rewrite add_other.
  - destruct (getWarnings_alloc type σ) as [b ->]. by apply alloc_keeps_snapshot.
  - rewrite groupWarnings_state. by apply alloc_keeps_snapshot.
  - by apply clear_keeps_snapshot.
  - by apply (clear_keeps_snapshot r a (TBaseObservable.complete σ)).
  - unfold TBaseObservable.subscribe. by destruct (completed σ).
  - done.
Qed.

Lemma run_snapshot r a ops σ : snapshot r a σ → snapshot r a (run ops σ).
Proof.
  revert σ. induction ops as [|op ops IH]; intros σ H; [done|].
  apply IH, step_snapshot, H.
Qed.

End store.

(** ** Notification *)

Section notification.
Implicit Types (σ : State) (w : WarningRecord) (o : Observer).

Lemma filter_calls_absent o w (l : list Observer) :
  o ∉ l → filter (λ c : Observer * WarningRecord, c.1 = o) ((λ o', (o', w)) <$> l) = [].
Proof.
  induction l as [|x l IH]; [done|]. intros H.
  apply not_elem_of_cons in H as [Hx Hl]. simpl.
  rewrite filter_cons_False by (simpl; congruence). by apply IH.
Qed.

Lemma filter_calls_present o w (l : list Observer) :
  NoDup l → o ∈ l →
  filter (λ c : Observer * WarningRecord, c.1 = o) ((λ o', (o', w)) <$> l) = [(o, w)].
Proof.
  induction 1 as [|x l Hx Hl IH]; intros Ho.
  - by apply elem_of_nil in Ho.
  - simpl. destruct (decide (x = o)) as [->|Hne].
    + rewrite filter_cons_True by done. by rewrite filter_calls_absent.
    + rewrite filter_cons_False by done. apply IH.
      apply elem_of_cons in Ho as [?|?]; [congruence|done].
Qed.

Lemma publish_subscribed o w σ :
  o ∈ observers σ →
  next_calls o (TBaseObservable.publish w σ) = next_calls o σ ++ [w].
Proof.
  intros Ho. unfold next_calls; simpl.
  rewrite filter_app, fmap_app, filter_calls_present; [done| |].
  - apply NoDup_elements.
  - by apply elem_of_elements.
Qed.

Lemma publish_not_subscribed o w σ :
  o ∉ observers σ →
  next_calls o (TBaseObservable.publish w σ) = next_calls o σ.
Proof.
  intros Ho. unfold next_calls; simpl.
  rewrite filter_app, fmap_app, filter_calls_absent; [by rewrite app_nil_r|].
  by rewrite elem_of_elements.
Qed.

Lemma add_subscribed o w σ :
  o ∈ observers σ →
  next_calls o (WarningManager.add w σ) = next_calls o σ ++ [w].
Proof.
  intros Ho.
  exact (publish_subscribed o w
           (set_arrays (alter (λ a, a ++ [w]) (warnings σ)) σ) Ho).
Qed.

Lemma add_not_subscribed o w σ :
  o ∉ observers σ →
  next_calls o (WarningManager.add w σ) = next_calls o σ.
Proof.
  intros Ho.
  exact (publish_not_subscribed o w
           (set_arrays (alter (λ a, a ++ [w]) (warnings σ)) σ) Ho).
Qed.

(** *** After completion *)

Lemma complete_detached σ : detached (WarningManager.complete σ).
Proof. done. Qed.

Lemma step_detached σ op :
  detached σ → detached (step σ op) ∧ calls (step σ op) = calls σ.
Proof.
  intros [Hc Ho]. destruct op as [warning type|type| | | |o|o]; cbn [step].
  - rewrite warn_cases. destruct (well_formed_call _ _); [|done].
    split; [done|]. simpl. by rewrite Ho, elements_empty, app_nil_r.
  - destruct (getWarnings_alloc type σ) as [a ->]. done.
  - rewrite groupWarnings_state. done.
  - done.
  - done.
  - unfold TBaseObservable.subscribe. by rewrite Hc.
  - split; [|done]. split; [done|]. simpl. rewrite Ho. apply empty_difference_L.
Qed.

Lemma run_detached ops σ :
  detached σ → detached (run ops σ) ∧ calls (run ops σ) = calls σ.
Proof.
  revert σ. induction ops as [|op ops IH]; intros σ H; [done|].
  destruct (step_detached σ op H) as [H1 H2].
  destruct (IH _ H1) as [H3 H4]. split; [done|]. simpl. congruence.
Qed.

End notification.

(** ** Grouping *)

Section grouping.
Implicit Types (grouped : gmap string (list WarningRecord)) (w : WarningRecord)
  (ws : list WarningRecord) (k : string).

Lemma group_step_insert grouped w :
  WarningManager.group_step grouped w
  = <[name w := default [] (grouped !! name w) ++ [w]]> grouped.
Proof.
  unfold WarningManager.group_step. case_bool_decide as H.
  - destruct H as [l Hl]. rewrite Hl. apply map_eq. intros k.
    rewrite lookup_alter, lookup_insert. case_decide; [subst k|done].
    by rewrite Hl.
  - apply eq_None_not_Some in H. rewrite H.
    exact (alter_insert_eq grouped (name w) (λ a, a ++ [w]) []).
Qed.

Lemma group_lookup ws k :
  foldl WarningManager.group_step ∅ ws !! k
  = match filter (λ w, name w = k) ws with
    | [] => None
    | ws' => Some ws'
    end.
Proof.
  induction ws as [|w ws IH] using rev_ind; [done|].
  rewrite foldl_snoc, group_step_insert, lookup_insert, filter_app.
  case_decide as E.
  - rewrite filter_cons_True, filter_nil by done. subst k. rewrite IH.
    by destruct (filter _ ws).
  - rewrite filter_cons_False, filter_nil, app_nil_r by done. apply IH.
Qed.

Lemma group_step_groups grouped w :
  mjoin (groups (WarningManager.group_step grouped w)) ≡ₚ mjoin (groups grouped) ++ [w].
Proof.
  rewrite group_step_insert. unfold groups.
  destruct (grouped !! name w) as [l|] eqn:E; simpl.
  - rewrite <- insert_delete_eq.
    rewrite map_to_list_insert by apply lookup_delete_eq.
    rewrite <- (map_to_list_delete grouped (name w) l E). csimpl.
    rewrite <- !app_assoc. apply Permutation_app_head, Permutation_app_comm.
  - rewrite map_to_list_insert by done. csimpl. apply Permutation_cons_append.
Qed.

Lemma groups_Permutation ws :
  mjoin (groups (foldl WarningManager.group_step ∅ ws)) ≡ₚ ws.
Proof.
  induction ws as [|w ws IH] using rev_ind.
  - unfold groups. simpl. by rewrite map_to_list_empty.
  - by rewrite foldl_snoc, group_step_groups, IH.
Qed.

End grouping.

(** ** Properties of the specification *)

(** C1 (as amended): on every manager whose field [warnings] refers to an
    array, a well-formed record call (an instance, or a message with a class,
    [Warning] by default) appends exactly one record, so [length] grows by
    one per call and by [N] over [N] calls, whatever the observers; every
    observer subscribed at the call gets exactly one more call of [next],
    with the record appended, and the others get none.  The record made from
    a message has the class asked for and carries the message supplied,
    except that the classes with a constructor of their own
    ([StabilityWarning], [DeprecationWarning], [PendingDeprecationWarning]
    and classes derived from them) replace an empty message by their default
    message. *)
Theorem warn_appends_and_notifies (σ : State) (warning : WarnArg) (type : TypeArg) :
  wf σ → well_formed_call warning type = true →
  let σ' := WarningManager.warn warning type σ in
  let w := recorded warning type in
  stored σ' = stored σ ++ [w] ∧
  WarningManager.length σ' = S (WarningManager.length σ) ∧
  (∀ o, o ∈ observers σ → next_calls o σ' = next_calls o σ ++ [w]) ∧
  (∀ o, o ∉ observers σ → next_calls o σ' = next_calls o σ) ∧
  (∀ cs, Forall (λ c, well_formed_call c.1 c.2 = true) cs →
     WarningManager.length (run (warn_ops cs) σ)
     = WarningManager.length σ + length cs) ∧
  match warning with
  | AWarning warning => w = warning
  | AMessage msg =>
      let c := match type with TClass c => c | _ => Warning end in
      class w = c ∧
      (msg ≠ ""%string → message w = msg) ∧
      (constructor_of c = None → message w = msg) ∧
      (∀ DEFAULT_MESSAGE createMessageFromData,
         constructor_of c = Some (DEFAULT_MESSAGE, createMessageFromData) →
         msg = ""%string → message w = DEFAULT_MESSAGE)
  end.
Proof.
  intros Hwf Hc σ' w. subst σ'. rewrite warn_cases, Hc. fold w.
  split; [by apply add_stored|].
  split; [unfold WarningManager.length; rewrite add_stored by done;
          rewrite length_app; simpl; lia|].
  split; [intros o Ho; by apply add_subscribed|].
  split; [intros o Ho; by apply add_not_subscribed|].
  split.
  - intros cs Hcs. unfold WarningManager.length.
    rewrite run_warn_stored by done. by rewrite length_app, length_fmap.
  - destruct warning as [w0|msg]; [done|]. subst w. cbn [recorded].
    set (c := match type with TClass c => c | _ => Warning end).
    rewrite new_message_message.
    split; [apply new_message_class|]. split; [|split].
    + intros Hm. destruct (constructor_of c) as [[D f]|]; [|done].
      by apply or_else_message.
    + by intros ->.
    + by intros D f -> ->.
Qed.

Lemma warn_appends_and_notifies_witness :
  wf example_manager ∧
  well_formed_call (AMessage "late") (TClass StabilityWarning) = true ∧
  let σ' := WarningManager.warn (AMessage "late") (TClass StabilityWarning)
              example_manager in
  WarningManager.length σ' = 4 ∧
  next_calls 5 σ'
  = next_calls 5 example_manager ++ [new_message StabilityWarning "late"] ∧
  WarningManager.length
    (run (warn_ops [(AMessage "a", TUndefined); (AMessage "b", TClass OSWarning)])
         example_manager) = 5.
Proof.
  assert (wf example_manager) as Hwf by (vm_compute; eexists; reflexivity).
  split; [exact Hwf|]. split; [reflexivity|].
  destruct (warn_appends_and_notifies example_manager (AMessage "late")
              (TClass StabilityWarning) Hwf eq_refl)
    as (_ & Hlen & Hsub & _ & Hrun & _).
  split; [exact Hlen|]. split.
  - apply Hsub. vm_compute. reflexivity.
  - apply (Hrun [(AMessage "a", TUndefined); (AMessage "b", TClass OSWarning)]).
    repeat constructor.
Defined.

(** C1 as stated fails: recording the empty message as a [StabilityWarning]
    appends and delivers a record whose message is not the message
    supplied. *)
Lemma warn_empty_message_replaced :
  let σ := TBaseObservable.subscribe 7 WarningManager.create in
  let σ' := WarningManager.warn (AMessage "") (TClass StabilityWarning) σ in
  ∃ w, stored σ' = [w] ∧ next_calls 7 σ' = [w] ∧ message w ≠ ""%string.
Proof.
  eexists. split; [vm_compute; reflexivity|]. split; [vm_compute; reflexivity|].
  vm_compute. discriminate.
Qed.

(** C2: for every manager, [complete()] empties the collection, unsubscribes
    every observer and sets [completed]; whatever is called afterwards, the
    manager stays completed with nobody subscribed, and no observer receives
    a further call of [next]; record calls made afterwards still append, so
    [length] counts them. *)
Theorem complete_clears_and_detaches (σ : State) :
  let σ' := WarningManager.complete σ in
  WarningManager.length σ' = 0 ∧
  observers σ' = ∅ ∧
  completed σ' = true ∧
  calls σ' = calls σ ∧
  (∀ ops,
     completed (run ops σ') = true ∧
     observers (run ops σ') = ∅ ∧
     ∀ o, next_calls o (run ops σ') = next_calls o σ) ∧
  (∀ cs, Forall (λ c, well_formed_call c.1 c.2 = true) cs →
     stored (run (warn_ops cs) σ') = (λ c, recorded c.1 c.2) <$> cs ∧
     WarningManager.length (run (warn_ops cs) σ') = length cs).
Proof.
  intros σ'.
  assert (stored σ' = []) as Hs by apply clear_stored.
  split; [unfold WarningManager.length; by rewrite Hs|].
  do 3 (split; [done|]). split.
  - intros ops. destruct (run_detached ops σ' (complete_detached σ)) as [[H1 H2] H3].
    split; [done|]. split; [done|]. intros o. unfold next_calls. by rewrite H3.
  - intros cs Hcs. unfold WarningManager.length.
    rewrite run_warn_stored; [|apply clear_wf|done].
    rewrite Hs. simpl. by rewrite length_fmap.
Qed.

Lemma complete_clears_and_detaches_witness :
  let σ' := WarningManager.complete example_manager in
  let cs := [(AMessage "after", TUndefined)] in
  Forall (λ c, well_formed_call c.1 c.2 = true) cs ∧
  WarningManager.length σ' = 0 ∧
  WarningManager.length (run (warn_ops cs) σ') = 1 ∧
  next_calls 5 (run (warn_ops cs) σ') = next_calls 5 example_manager.
Proof.
  intros σ' cs.
  assert (Forall (λ c, well_formed_call c.1 c.2 = true) cs) as Hcs
    by (repeat constructor).
  destruct (complete_clears_and_detaches example_manager)
    as (Hlen & _ & _ & _ & Hops & Hrun).
  split; [exact Hcs|]. split; [exact Hlen|].
  split; [exact (proj2 (Hrun cs Hcs))|].
  apply (Hops (warn_ops cs)).
Defined.

(** C3 (as amended): for every manager, a record call with a string message
    and a falsy value other than [undefined] (such as [null]) in place of the
    class is a no-op: nothing is appended and no observer is called. *)
Theorem warn_falsy_type_noop (σ : State) (msg : string) :
  let σ' := WarningManager.warn (AMessage msg) TFalsy σ in
  σ' = σ ∧
  WarningManager.length σ' = WarningManager.length σ ∧
  calls σ' = calls σ.
Proof. done. Qed.

(** C3 as stated fails: with the class left out, or [undefined] passed for
    it, the default [Warning] applies, the record is appended and the
    observer is called. *)
Lemma warn_undefined_type_appends :
  let σ := TBaseObservable.subscribe 7 WarningManager.create in
  let σ' := WarningManager.warn (AMessage "slow") TUndefined σ in
  WarningManager.length σ = 0 ∧
  WarningManager.length σ' = 1 ∧
  next_calls 7 σ' = [new_message Warning "slow"].
Proof. vm_compute. done. Qed.

(** C4: on every manager whose field [warnings] refers to an array,
    [getWarnings()] without a filter returns a new array holding exactly the
    stored records, in the order they were recorded, of length [length];
    nothing called on the manager afterwards, recording included, changes
    the array returned. *)
Theorem getWarnings_snapshot (σ : State) :
  wf σ →
  let r := (WarningManager.getWarnings FNone σ).1 in
  let σ1 := (WarningManager.getWarnings FNone σ).2 in
  arrays σ !! r = None ∧
  arrays σ1 !! r = Some (stored σ) ∧
  length (stored σ) = WarningManager.length σ ∧
  (∀ cs, Forall (λ c, well_formed_call c.1 c.2 = true) cs →
     stored (run (warn_ops cs) σ) = stored σ ++ ((λ c, recorded c.1 c.2) <$> cs)) ∧
  (∀ ops, arrays (run ops σ1) !! r = Some (stored σ)).
Proof.
  intros Hwf r σ1. subst r σ1. cbn [WarningManager.getWarnings].
  pose proof (alloc_snapshot (stored σ) σ Hwf) as H.
  split; [apply alloc_fresh|]. split; [apply H|]. split; [done|]. split.
  - intros cs Hcs. by apply run_warn_stored.
  - intros ops. by apply run_snapshot.
Qed.

Lemma getWarnings_snapshot_witness :
  wf example_manager ∧
  let r := (WarningManager.getWarnings FNone example_manager).1 in
  let σ1 := (WarningManager.getWarnings FNone example_manager).2 in
  arrays (run [Warn (AMessage "late") TUndefined; Clear] σ1) !! r
  = Some (stored example_manager).
Proof.
  assert (wf example_manager) as Hwf by (vm_compute; eexists; reflexivity).
  split; [exact Hwf|].
  destruct (getWarnings_snapshot example_manager Hwf) as (_ & _ & _ & _ & H).
  apply (H [Warn (AMessage "late") TUndefined; Clear]).
Defined.

(** C5: for every manager and every string [s], [getWarnings(s)] returns
    exactly the stored records whose message contains [s] as a substring
    (compared character for character), in recording order; the empty
    string returns all stored records. *)
Theorem getWarnings_by_substring (σ : State) (s : string) :
  let r := (WarningManager.getWarnings (FString s) σ).1 in
  let σ' := (WarningManager.getWarnings (FString s) σ).2 in
  ∃ result,
    arrays σ' !! r = Some result ∧
    result = filter (λ w, JS.includes (message w) s) (stored σ) ∧
    result `sublist_of` stored σ ∧
    (∀ w, w ∈ result ↔ w ∈ stored σ ∧ contains (message w) s) ∧
    (s = ""%string → result = stored σ).
Proof.
  intros r σ'. subst r σ'. cbn [WarningManager.getWarnings].
  eexists. split; [apply alloc_lookup|]. split; [done|].
  split; [apply sublist_filter|]. split.
  - intros w. rewrite list_elem_of_filter, Is_true_true, includes_contains. tauto.
  - intros ->. induction (stored σ) as [|w l IH]; [done|].
    rewrite filter_cons_True; [by rewrite IH|].
    apply Is_true_true, includes_contains, contains_empty.
Qed.

Lemma getWarnings_by_substring_witness :
  let r := (WarningManager.getWarnings (FString "") example_manager).1 in
  let σ' := (WarningManager.getWarnings (FString "") example_manager).2 in
  arrays σ' !! r = Some (stored example_manager).
Proof.
  destruct (getWarnings_by_substring example_manager "")
    as (result & Hr & _ & _ & _ & Hall).
  intros r σ'. subst r σ'. rewrite Hr. f_equal. apply Hall. reflexivity.
Defined.

(** C6: for every manager and every class [V], [getWarnings(V)] returns
    exactly the stored records whose class is [V] or derives from [V], in
    recording order. *)
Theorem getWarnings_by_class (σ : State) (V : Constructor) :
  let r := (WarningManager.getWarnings (FClass V) σ).1 in
  let σ' := (WarningManager.getWarnings (FClass V) σ).2 in
  ∃ result,
    arrays σ' !! r = Some result ∧
    result = filter (λ w, instanceof w V) (stored σ) ∧
    result `sublist_of` stored σ ∧
    (∀ w, w ∈ result ↔ w ∈ stored σ ∧ is_a (class w) V).
Proof.
  intros r σ'. subst r σ'. cbn [WarningManager.getWarnings].
  eexists. split; [apply alloc_lookup|]. split; [done|].
  split; [apply sublist_filter|].
  intros w. rewrite list_elem_of_filter, Is_true_true, instanceof_is_a. tauto.
Qed.

Lemma getWarnings_by_class_witness :
  let r := (WarningManager.getWarnings (FClass OSWarning) example_manager).1 in
  let σ' := (WarningManager.getWarnings (FClass OSWarning) example_manager).2 in
  ∃ result,
    arrays σ' !! r = Some result ∧
    new_message DiskWarning "disk low" ∈ result ∧
    new_message Warning "slow" ∉ result.
Proof.
  destruct (getWarnings_by_class example_manager OSWarning)
    as (result & Hr & _ & _ & Hin).
  exists result. split; [exact Hr|]. split.
  - apply Hin. split.
    + vm_compute. apply list_elem_of_here.
    + apply (is_a_extends _ OSWarning); [reflexivity|apply is_a_refl].
  - intros H. apply Hin in H as [_ H].
    apply prototype_chain_is_a in H. vm_compute in H.
    apply list_elem_of_singleton in H. discriminate H.
Defined.

(** C7: for every manager, [groupWarnings()] returns a map keyed by the
    [name] of each record (the name of its own class when it was made by
    [new]) that partitions the stored records: each group is the stored
    records of that name in recording order and is not empty, every stored
    record is in the group of its name and in no other, the groups together
    are a rearrangement of the stored records, their sizes sum to [length],
    and the keys are the names present. *)
Theorem groupWarnings_partition (σ : State) :
  let grouped := (WarningManager.groupWarnings σ).1 in
  (∀ k ws, grouped !! k = Some ws →
     ws = filter (λ w, name w = k) (stored σ) ∧ ws ≠ [] ∧
     ws `sublist_of` stored σ) ∧
  (∀ w, w ∈ stored σ → ∃ ws, grouped !! name w = Some ws ∧ w ∈ ws) ∧
  (∀ k1 k2 ws1 ws2 w,
     grouped !! k1 = Some ws1 → grouped !! k2 = Some ws2 →
     w ∈ ws1 → w ∈ ws2 → k1 = k2) ∧
  mjoin (groups grouped) ≡ₚ stored σ ∧
  sum_list (length <$> groups grouped) = WarningManager.length σ ∧
  (∀ k, k ∈ dom grouped ↔ ∃ w, w ∈ stored σ ∧ name w = k) ∧
  (∀ type messageOrData data w,
     new type messageOrData data = Some w → name w = class_name type).
Proof.
  intros grouped. subst grouped. rewrite groupWarnings_result.
  set (grouped := foldl WarningManager.group_step ∅ (stored σ)).
  assert (∀ k ws, grouped !! k = Some ws →
            ws = filter (λ w, name w = k) (stored σ) ∧ ws ≠ []) as Hget.
  { intros k ws. unfold grouped. rewrite group_lookup.
    destruct (filter _ (stored σ)) as [|x l]; [done|]. by intros [= <-]. }
  assert (∀ k ws w, grouped !! k = Some ws → w ∈ ws → name w = k) as Hname.
  { intros k ws w Hk Hw. apply Hget in Hk as [-> _].
    by apply list_elem_of_filter in Hw as [? _]. }
  split; [|split; [|split; [|split; [|split; [|split]]]]].
  - intros k ws Hk. destruct (Hget k ws Hk) as [-> Hne].
    split; [done|]. split; [done|]. apply sublist_filter.
  - intros w Hw. unfold grouped. rewrite group_lookup.
    assert (w ∈ filter (λ w', name w' = name w) (stored σ)) as Hin
      by by apply list_elem_of_filter.
    destruct (filter _ (stored σ)) as [|x l]; [by apply elem_of_nil in Hin|eauto].
  - intros k1 k2 ws1 ws2 w H1 H2 Hw1 Hw2.
    by rewrite <- (Hname _ _ _ H1 Hw1), <- (Hname _ _ _ H2 Hw2).
  - apply groups_Permutation.
  - rewrite <- length_join. unfold WarningManager.length, grouped.
    by rewrite (groups_Permutation (stored σ)).
  - intros k. rewrite elem_of_dom. unfold grouped. rewrite group_lookup. split.
    + intros [ws Hws]. destruct (filter _ (stored σ)) as [|x l] eqn:E; [done|].
      assert (x ∈ filter (λ w, name w = k) (stored σ)) as Hx
        by (rewrite E; apply elem_of_cons; by left).
      apply list_elem_of_filter in Hx as [? ?]. eauto.
    + intros (w & Hw & Hk).
      assert (w ∈ filter (λ w, name w = k) (stored σ)) as Hin
        by by apply list_elem_of_filter.
      destruct (filter _ (stored σ)); [by apply elem_of_nil in Hin|by eexists].
  - intros type messageOrData data w. unfold new.
    destruct (constructor_of type) as [[D f]|].
    + destruct (future_constructor D f messageOrData data). by intros [= <-].
    + destruct messageOrData as [[m|d]|]; [|done|done]. by intros [= <-].
Qed.

Lemma groupWarnings_partition_witness :
  let grouped := (WarningManager.groupWarnings example_manager).1 in
  let w := new_message Warning "slow" in
  w ∈ stored example_manager ∧
  ∃ ws, grouped !! "Warning" = Some ws ∧ w ∈ ws.
Proof.
  intros grouped w.
  assert (w ∈ stored example_manager) as Hw
    by (vm_compute; apply list_elem_of_further, list_elem_of_here).
  split; [exact Hw|].
  destruct (groupWarnings_partition example_manager) as (_ & Hin & _).
  apply (Hin w Hw).
Defined.

(** C8: for every manager, [clear()] removes all stored records, so [length]
    is 0 and a query without a filter returns an empty array, and leaves the
    observers, the [completed] flag and the calls made so far as they
    were. *)
Theorem clear_removes_records_only (σ : State) :
  let σ' := WarningManager.clear σ in
  let r := (WarningManager.getWarnings FNone σ').1 in
  let σ'' := (WarningManager.getWarnings FNone σ').2 in
  stored σ' = [] ∧
  WarningManager.length σ' = 0 ∧
  arrays σ'' !! r = Some [] ∧
  observers σ' = observers σ ∧
  completed σ' = completed σ ∧
  calls σ' = calls σ.
Proof.
  intros σ' r σ''. pose proof (clear_stored σ) as H. fold σ' in H.
  split; [done|]. split; [unfold WarningManager.length; by rewrite H|].
  split; [|done].
  subst r σ''. cbn [WarningManager.getWarnings]. rewrite H. apply alloc_lookup.
Qed.

(** C9: for every class and every argument list its constructor accepts, an
    instance is constructed and its [code] is the fixed value of the class,
    whatever the message and the data: Warning 72, OSWarning 73,
    MemoryWarning 74, DiskWarning 75, ProcessWarning 76, ConnectionWarning 77,
    FutureWarning 88, StabilityWarning 89, PendingDeprecationWarning 90,
    DeprecationWarning 91 (a class derived with an empty body has the code of
    its parent). *)
Theorem code_of_each_class (type : Constructor)
    (messageOrData : option MessageOrData) (data : option Data) :
  valid_arguments type messageOrData = true →
  ∃ w, new type messageOrData data = Some w ∧
       code w = match type with
                | Warning => 72
                | OSWarning => 73
                | MemoryWarning => 74
                | DiskWarning => 75
                | ProcessWarning => 76
                | ConnectionWarning => 77
                | FutureWarning => 88
                | StabilityWarning => 89
                | PendingDeprecationWarning => 90
                | DeprecationWarning => 91
                | Subclass _ _ parent => class_code parent
                end%N.
Proof.
  intros H. destruct (new_defined type messageOrData data H) as (m & d & ->).
  eexists. split; [done|]. by destruct type.
Qed.

Lemma code_of_each_class_witness :
  valid_arguments ProcessWarning (Some (ArgMessage "Process was restarted.")) = true ∧
  ∃ w, new ProcessWarning (Some (ArgMessage "Process was restarted.")) None = Some w ∧
       code w = 76%N.
Proof.
  split; [reflexivity|].
  apply (code_of_each_class ProcessWarning
           (Some (ArgMessage "Process was restarted.")) None).
  reflexivity.
Defined.

(** C10: a [StabilityWarning] constructed from a data object in which none
    of [featureType], [featureName] and [aboutUrl] is truthy, or from the
    empty string as message, has the default message; when [featureType] is
    truthy, the message built from the data is the article, a space, the
    feature type and the rest of the template, where the article is "An"
    exactly when the lowercased first character of [featureType] is one of
    [aeiou], and "A" otherwise. *)
Theorem StabilityWarning_default_and_article :
  (∀ (d : Data) (data : option Data),
     JS.truthy_opt (d !! "featureType") = false →
     JS.truthy_opt (d !! "featureName") = false →
     JS.truthy_opt (d !! "aboutUrl") = false →
     message <$> new StabilityWarning (Some (ArgData d)) data
     = Some "A feature is unstable and should not be used in production environments."%string) ∧
  (∀ data : option Data,
     message <$> new StabilityWarning (Some (ArgMessage "")) data
     = Some "A feature is unstable and should not be used in production environments."%string) ∧
  (∀ (d : Data) (data : option Data) (featureType : string),
     d !! "featureType" = Some featureType → JS.truthy featureType = true →
     ∃ m tail,
       message <$> new StabilityWarning (Some (ArgData d)) data = Some m ∧
       m = (if starts_with_vowel featureType then "An" else "A")
             +:+ " " +:+ featureType +:+ tail ∧
       JS.startsWith m "An " = starts_with_vowel featureType ∧
       JS.startsWith m "A " = negb (starts_with_vowel featureType)).
Proof.
  split; [|split].
  - intros d data H1 H2 H3. rewrite new_StabilityWarning_data.
    by rewrite (stability_default d H1 H2 H3).
  - intros data. done.
  - intros d data ft Hft Ht.
    destruct (stability_article d ft Hft Ht) as [tail E].
    rewrite new_StabilityWarning_data, E. eexists _, tail.
    split; [|split; [reflexivity|]].
    + rewrite or_else_truthy; [done|]. by destruct (starts_with_vowel ft).
    + by destruct (starts_with_vowel ft).
Qed.

Lemma StabilityWarning_default_and_article_witness :
  message <$> new StabilityWarning (Some (ArgData {[ "foo" := "bar" ]})) None
  = Some "A feature is unstable and should not be used in production environments."%string ∧
  ∃ m tail,
    message <$> new StabilityWarning
                  (Some (ArgData {[ "featureType" := "Interface" ]})) None = Some m ∧
    m = "An" +:+ " " +:+ "Interface" +:+ tail.
Proof.
  destruct StabilityWarning_default_and_article as (Hdefault & _ & Harticle).
  split.
  - apply Hdefault; reflexivity.
  - destruct (Harticle {[ "featureType" := "Interface" ]} None "Interface")
      as (m & tail & Hm & Heq & _); [reflexivity|reflexivity|].
    exists m, tail. split; [exact Hm|exact Heq].
Defined.

(** ** The scenarios of the specification *)

(** Three records, two of them disk warnings: [length] is 3, the query for
    "disk" returns the two disk records in order, and the grouping has two
    records under "DiskWarning" and one under "Warning". *)
Example scenario_disk :
  let σ := example_manager in
  let q := WarningManager.getWarnings (FString "disk") σ in
  let grouped := (WarningManager.groupWarnings σ).1 in
  WarningManager.length σ = 3 ∧
  fmap (M:=option) (fmap (M:=list) message) (arrays q.2 !! q.1)
  = Some ["disk low"; "disk low again"]%string ∧
  fmap (M:=option) length (grouped !! "DiskWarning") = Some 2 ∧
  fmap (M:=option) length (grouped !! "Warning") = Some 1 ∧
  size grouped = 2.
Proof. vm_compute. done. Qed.

(** The string filter distinguishes upper and lower case. *)
Example scenario_case_sensitive :
  let σ := example_manager in
  let q := WarningManager.getWarnings (FString "Disk") σ in
  arrays q.2 !! q.1 = Some [].
Proof. vm_compute. done. Qed.

(** An observer subscribed before completion is called once for the record
    made before [complete()] and not for the one made after it, and [length]
    is then 1. *)
Example scenario_complete :
  let σ := run [Subscribe 1;
                Warn (AMessage "first") TUndefined;
                Complete;
                Warn (AMessage "second") TUndefined]
               WarningManager.create in
  next_calls 1 σ = [new_message Warning "first"] ∧
  WarningManager.length σ = 1.
Proof. vm_compute. done. Qed.

(** ** Further properties of the code *)

(** *** Strings *)

Section more_strings.
Implicit Types (s t u p q : string).

Lemma append_assoc s t u : (s +:+ t) +:+ u = s +:+ (t +:+ u).
Proof.
  induction s as [|x s IH]; [done|].
  change (String x ((s +:+ t) +:+ u) = String x (s +:+ (t +:+ u))). by rewrite IH.
Qed.

Lemma append_nil_r s : s +:+ "" = s.
Proof.
  induction s as [|x s IH]; [done|].
  change (String x (s +:+ "") = String x s). by rewrite IH.
Qed.

Lemma contains_refl s : contains s s.
Proof. exists ""%string, ""%string. by rewrite append_nil_r. Qed.

Lemma contains_here s t : contains (s +:+ t) s.
Proof. by exists ""%string, t. Qed.

Lemma contains_append_r p t s : contains t s → contains (p +:+ t) s.
Proof.
  intros (pre & post & ->). exists (p +:+ pre), post. by rewrite append_assoc.
Qed.

Lemma contains_append_l q t s : contains t s → contains (t +:+ q) s.
Proof.
  intros (pre & post & ->). exists pre, (post +:+ q). by rewrite !append_assoc.
Qed.

Lemma contains_trans t u s : contains t u → contains u s → contains t s.
Proof.
  intros (pre & post & ->) H. by apply contains_append_r, contains_append_l.
Qed.

End more_strings.

(** *** The message templates *)

Lemma article_start (d : Data) t :
  d !! "featureType" = Some t → JS.truthy t = true →
  (if JS.includes "aeiou"
        (JS.or_else (from_option (λ t, JS.toLowerCase (JS.charAt0 t)) "" (d !! "featureType")) "")
   then "An" else "A")%string = article t.
Proof. intros -> Ht. by apply article_eq. Qed.

Ltac template_cases d :=
  destruct (d !! "aboutUrl") as [[|? ?]|];
  destruct (d !! "featureName") as [[|? ?]|];
  cbn [JS.truthy_opt JS.truthy andb default clause];
  rewrite ?append_assoc; reflexivity.

Ltac template_cases4 d :=
  destruct (d !! "aboutUrl") as [[|? ?]|];
  destruct (d !! "alternativeFeatureName") as [[|? ?]|];
  destruct (d !! "featureName") as [[|? ?]|];
  cbn [JS.truthy_opt JS.truthy andb default clause];
  rewrite ?append_assoc; reflexivity.

Lemma StabilityWarning_template (d : Data) :
  StabilityWarningImpl.createMessageFromData d
  = composed " is unstable and should not be used in production environments." false d.
Proof.
  unfold StabilityWarningImpl.createMessageFromData, composed, subject. cbv zeta.
  destruct (d !! "featureType") as [t|] eqn:Ht.
  - destruct (JS.truthy t) eqn:Htt.
    + rewrite <- Ht, (article_start d t Ht Htt), Ht.
      cbn [JS.truthy_opt]. rewrite Htt. template_cases d.
    + cbn [JS.truthy_opt]. rewrite Htt. template_cases d.
  - template_cases d.
Qed.

Lemma PendingDeprecationWarning_template (d : Data) :
  PendingDeprecationWarningImpl.createMessageFromData d
  = composed " is pending deprecation." false d.
Proof.
  unfold PendingDeprecationWarningImpl.createMessageFromData, composed, subject. cbv zeta.
  destruct (d !! "featureType") as [t|] eqn:Ht.
  - destruct (JS.truthy t) eqn:Htt.
    + rewrite <- Ht, (article_start d t Ht Htt), Ht.
      cbn [JS.truthy_opt]. rewrite Htt. template_cases d.
    + cbn [JS.truthy_opt]. rewrite Htt. template_cases d.
  - template_cases d.
Qed.

Lemma DeprecationWarning_template (d : Data) :
  DeprecationWarningImpl.createMessageFromData d
  = composed " has been deprecated." true d.
Proof.
  unfold DeprecationWarningImpl.createMessageFromData, composed, subject. cbv zeta.
  destruct (d !! "featureType") as [t|] eqn:Ht.
  - destruct (JS.truthy t) eqn:Htt.
    + rewrite <- Ht, (article_start d t Ht Htt), Ht.
      cbn [JS.truthy_opt]. rewrite Htt. template_cases4 d.
    + cbn [JS.truthy_opt]. rewrite Htt. template_cases4 d.
  - template_cases4 d.
Qed.

Lemma composed_truthy verb alternative d :
  JS.truthy (composed verb alternative d) = true.
Proof.
  unfold composed, subject.
  destruct (d !! "featureType") as [t|]; [|done].
  destruct (JS.truthy t); [|done]. unfold article. by destruct (starts_with_vowel t).
Qed.

Lemma composed_mentions verb alternative (d : Data) key s :
  key ∈ ["featureType"; "featureName"; "aboutUrl"]%string ∨
    (alternative = true ∧ key = "alternativeFeatureName"%string) →
  d !! key = Some s → JS.truthy s = true →
  contains (composed verb alternative d) s.
Proof.
  intros Hkey Hs Ht. unfold composed, subject.
  destruct Hkey as [Hkey|[-> ->]].
  - apply elem_of_cons in Hkey as [->|Hkey]; [|apply elem_of_cons in Hkey as [->|Hkey]].
    + rewrite Hs, Ht. apply contains_append_l.
      do 2 apply contains_append_r. apply contains_refl.
    + rewrite Hs. cbn [clause]. rewrite Ht.
      apply contains_append_r, contains_append_l, contains_append_r, contains_here.
    + apply list_elem_of_singleton in Hkey as ->. rewrite Hs. cbn [clause]. rewrite Ht.
      do 5 apply contains_append_r. apply contains_here.
  - rewrite Hs. cbn [clause]. rewrite Ht.
    do 3 apply contains_append_r.
    apply contains_append_l, contains_append_r, contains_here.
Qed.

Lemma composed_read_more verb alternative (d : Data) url :
  d !! "aboutUrl" = Some url → JS.truthy url = true →
  ∃ pre, composed verb alternative d = pre +:+ " Read more at " +:+ url +:+ ".".
Proof.
  intros Hs Ht. unfold composed. rewrite Hs. cbn [clause]. rewrite Ht.
  exists (subject d +:+ clause ", " (d !! "featureName") "," +:+ verb +:+
          (if alternative
           then clause " Use " (d !! "alternativeFeatureName") " instead." else "")).
  by rewrite !append_assoc.
Qed.

Lemma constructor_of_composed type D f :
  constructor_of type = Some (D, f) →
  ∃ verb alternative,
    D = "A feature" +:+ verb ∧ ∀ d, f d = composed verb alternative d.
Proof.
  induction type; simpl; try done.
  - intros [= <- <-]. eexists _, _. split; [reflexivity|].
    apply StabilityWarning_template.
  - intros [= <- <-]. eexists _, _. split; [reflexivity|].
    apply DeprecationWarning_template.
  - intros [= <- <-]. eexists _, _. split; [reflexivity|].
    apply PendingDeprecationWarning_template.
Qed.

Lemma new_declared type D f messageOrData data :
  constructor_of type = Some (D, f) →
  new type messageOrData data
  = Some (Exception type (future_constructor D f messageOrData data).1
                         (Some (future_constructor D f messageOrData data).2)).
Proof.
  intros H. unfold new. rewrite H.
  by destruct (future_constructor D f messageOrData data).
Qed.

Lemma new_data_message type D f d data :
  constructor_of type = Some (D, f) →
  message <$> new type (Some (ArgData d)) data = Some (f d).
Proof.
  intros H. destruct (constructor_of_composed type D f H) as (verb & alt & HD & Hf).
  rewrite (new_declared _ _ _ _ _ H). simpl. f_equal.
  apply or_else_truthy. rewrite Hf. apply composed_truthy.
Qed.

(** X1: the message a [StabilityWarning] builds from a data object is the
    subject (the feature type with its article, or "A feature"), the feature
    name between commas when there is one, the verb phrase, and the link when
    there is one; the eight cases of the [switch] add up to that. *)
Theorem StabilityWarning_message_is_composed (d : Data) (data : option Data) :
  message <$> new StabilityWarning (Some (ArgData d)) data
  = Some (composed " is unstable and should not be used in production environments."
            false d).
Proof.
  rewrite (new_data_message StabilityWarning _ _ d data eq_refl).
  by rewrite StabilityWarning_template.
Qed.

(** X2: the message a [PendingDeprecationWarning] builds from a data object
    is composed in the same way, with its own verb phrase. *)
Theorem PendingDeprecationWarning_message_is_composed (d : Data) (data : option Data) :
  message <$> new PendingDeprecationWarning (Some (ArgData d)) data
  = Some (composed " is pending deprecation." false d).
Proof.
  rewrite (new_data_message PendingDeprecationWarning _ _ d data eq_refl).
  by rewrite PendingDeprecationWarning_template.
Qed.

(** X3: the message a [DeprecationWarning] builds from a data object is the
    subject, the feature name, "has been deprecated.", the alternative ("Use
    ... instead.") when there is one and the link when there is one; the
    sixteen cases of the [switch] add up to that, and a truthy alternative
    always appears in the message. *)
Theorem DeprecationWarning_message_is_composed (d : Data) (data : option Data) :
  message <$> new DeprecationWarning (Some (ArgData d)) data
  = Some (composed " has been deprecated." true d) ∧
  (∀ alt, d !! "alternativeFeatureName" = Some alt → JS.truthy alt = true →
     contains (composed " has been deprecated." true d) (" Use " +:+ alt +:+ " instead.")).
Proof.
  split.
  - rewrite (new_data_message DeprecationWarning _ _ d data eq_refl).
    by rewrite DeprecationWarning_template.
  - intros alt Hs Ht. unfold composed. rewrite Hs. cbn [clause]. rewrite Ht.
    do 3 apply contains_append_r. apply contains_here.
Qed.

Lemma DeprecationWarning_message_is_composed_witness :
  let d : Data := {[ "featureName" := "foo"; "alternativeFeatureName" := "bar" ]} in
  message <$> new DeprecationWarning (Some (ArgData d)) None
  = Some "A feature, foo, has been deprecated. Use bar instead."%string ∧
  contains (composed " has been deprecated." true d) " Use bar instead.".
Proof.
  intros d. destruct (DeprecationWarning_message_is_composed d None) as [H1 H2].
  split; [exact H1|]. apply (H2 "bar"%string); reflexivity.
Defined.

(** X4: for every class that runs one of the three declared constructors,
    the message built from a data object mentions every truthy one of
    [featureType], [featureName] and [aboutUrl], and when [aboutUrl] is
    truthy the message ends with " Read more at <aboutUrl>.". *)
Theorem data_message_mentions_fields (type : Constructor) (DEFAULT_MESSAGE : string)
    (createMessageFromData : Data → string) (d : Data) (data : option Data) :
  constructor_of type = Some (DEFAULT_MESSAGE, createMessageFromData) →
  ∃ m,
    message <$> new type (Some (ArgData d)) data = Some m ∧
    m = createMessageFromData d ∧
    (∀ key s,
       key ∈ ["featureType"; "featureName"; "aboutUrl"]%string →
       d !! key = Some s → JS.truthy s = true → contains m s) ∧
    (∀ url,
       d !! "aboutUrl" = Some url → JS.truthy url = true →
       ∃ pre, m = pre +:+ " Read more at " +:+ url +:+ ".").
Proof.
  intros H.
  destruct (constructor_of_composed type _ _ H) as (verb & alt & HD & Hf).
  exists (createMessageFromData d). split; [by eapply new_data_message|].
  split; [done|]. rewrite Hf. split.
  - intros key s Hkey. apply composed_mentions. by left.
  - apply composed_read_more.
Qed.

Lemma data_message_mentions_fields_witness :
  let type := Subclass 1 "RemovalWarning" PendingDeprecationWarning in
  let d : Data := {[ "featureName" := "foo"; "aboutUrl" := "https://example.com" ]} in
  constructor_of type
  = Some (PendingDeprecationWarningImpl.DEFAULT_MESSAGE,
          PendingDeprecationWarningImpl.createMessageFromData) ∧
  ∃ m, message <$> new type (Some (ArgData d)) None = Some m ∧
       contains m "foo" ∧
       ∃ pre, m = pre +:+ " Read more at " +:+ "https://example.com" +:+ ".".
Proof.
  intros type d. split; [reflexivity|].
  destruct (data_message_mentions_fields type _ _ d None eq_refl)
    as (m & Hm & _ & Hkeys & Hurl).
  exists m. split; [exact Hm|]. split.
  - apply (Hkeys "featureName"%string "foo"%string);
      [apply list_elem_of_further, list_elem_of_here|reflexivity|reflexivity].
  - apply Hurl; reflexivity.
Defined.

(** X5: for every class that runs one of the three declared constructors:
    constructed without arguments or from the empty string it has the default
    message; a non-empty message is kept as it is, whatever data comes with
    it; and every instance has a non-empty message, the class asked for, its
    name and its code. *)
Theorem declared_constructor_message (type : Constructor) (DEFAULT_MESSAGE : string)
    (createMessageFromData : Data → string) :
  constructor_of type = Some (DEFAULT_MESSAGE, createMessageFromData) →
  (∀ data, message <$> new type None data = Some DEFAULT_MESSAGE) ∧
  (∀ data, message <$> new type (Some (ArgMessage "")) data = Some DEFAULT_MESSAGE) ∧
  (∀ msg data, msg ≠ ""%string →
     message <$> new type (Some (ArgMessage msg)) data = Some msg) ∧
  (∀ messageOrData data,
     ∃ w, new type messageOrData data = Some w ∧ message w ≠ ""%string ∧
          class w = type ∧ name w = class_name type ∧ code w = class_code type).
Proof.
  intros H.
  destruct (constructor_of_composed type _ _ H) as (verb & alt & HD & Hf).
  assert (JS.truthy DEFAULT_MESSAGE = true) as HDt by by rewrite HD.
  split; [|split; [|split]].
  - intros data. rewrite (new_declared _ _ _ _ _ H). simpl. f_equal.
    by apply or_else_truthy.
  - intros data. by rewrite (new_declared _ _ _ _ _ H).
  - intros msg data Hm. rewrite (new_declared _ _ _ _ _ H). simpl. f_equal.
    by apply or_else_message.
  - intros a1 a2. rewrite (new_declared _ _ _ _ _ H). eexists. split; [done|].
    split; [|done]. simpl.
    destruct a1 as [[m|d]|]; simpl.
    + unfold JS.or_else. destruct m; simpl; [by destruct DEFAULT_MESSAGE|done].
    + rewrite or_else_truthy by (rewrite Hf; apply composed_truthy).
      rewrite Hf. pose proof (composed_truthy verb alt d) as Hc.
      by destruct (composed verb alt d).
    + rewrite or_else_truthy by done. by destruct DEFAULT_MESSAGE.
Qed.

Lemma declared_constructor_message_witness :
  constructor_of StabilityWarning
  = Some (StabilityWarningImpl.DEFAULT_MESSAGE,
          StabilityWarningImpl.createMessageFromData) ∧
  message <$> new StabilityWarning None None
  = Some StabilityWarningImpl.DEFAULT_MESSAGE ∧
  message <$> new StabilityWarning (Some (ArgMessage "This feature is unstable."))
                (Some {[ "featureName" := "foo" ]})
  = Some "This feature is unstable."%string.
Proof.
  split; [reflexivity|].
  destruct (declared_constructor_message StabilityWarning _ _ eq_refl)
    as (Hnone & _ & Hkept & _).
  split; [apply Hnone|]. apply Hkept. discriminate.
Defined.

(** *** The hierarchy and the codes *)

Lemma is_a_Warning c : is_a c Warning.
Proof. induction c; eauto 4 using is_a. Qed.

Lemma is_a_trans c d e : is_a c d → is_a d e → is_a c e.
Proof.
  induction 1 as [c|c p d Hp _ IH]; [done|]. intros He.
  eapply is_a_extends; [done|]. by apply IH.
Qed.

Lemma extends_depth c p :
  extends c = Some p → length (prototype_chain c) = S (length (prototype_chain p)).
Proof. intros H. by rewrite (prototype_chain_unfold c), H. Qed.

Lemma is_a_depth c d :
  is_a c d → c = d ∨ length (prototype_chain d) < length (prototype_chain c).
Proof.
  induction 1 as [c|c p d Hp _ IH]; [by left|]. right.
  rewrite (extends_depth c p Hp). destruct IH as [->|IH]; lia.
Qed.

Lemma is_a_Subclass i n p d :
  d ≠ Subclass i n p → is_a (Subclass i n p) d ↔ is_a p d.
Proof.
  intros Hne. split.
  - intros H. inversion H as [|? q ? Hq Hd]; subst; [done|].
    simpl in Hq. by injection Hq as ->.
  - intros H. by eapply is_a_extends.
Qed.

Ltac family_side :=
  first
    [ by (cbn; lia)
    | let H := fresh "H" in
      intros H; cbn in H |- *;
      first
        [ lia
        | by repeat constructor
        | exfalso;
          repeat (apply elem_of_cons in H as [H|H]; [discriminate H|]);
          by apply elem_of_nil in H ] ].

Lemma class_code_family c :
  (is_a c OSWarning ↔ (73 ≤ class_code c ≤ 77)%N) ∧
  (is_a c FutureWarning ↔ (88 ≤ class_code c ≤ 91)%N) ∧
  (72 ≤ class_code c ≤ 91)%N.
Proof.
  induction c as [| | | | | | | | | |i n p IH];
    [rewrite <- !prototype_chain_is_a;
     (split; [split|split; [split|]]); family_side ..|].
  rewrite !is_a_Subclass by done. exact IH.
Qed.

Lemma new_class_code type messageOrData data w :
  new type messageOrData data = Some w →
  class w = type ∧ name w = class_name type ∧ code w = class_code type.
Proof.
  unfold new. destruct (constructor_of type) as [[D f]|].
  - destruct (future_constructor D f messageOrData data). by intros [= <-].
  - destruct messageOrData as [[m|d]|]; [|done|done]. by intros [= <-].
Qed.

(** X6: the classes form a tree under [extends] with [Warning] at the root:
    "is the class or derives from it" is reflexive, transitive and
    antisymmetric, every class is a [Warning], and [Warning] derives from no
    other class. *)
Theorem hierarchy_partial_order :
  (∀ c, is_a c c) ∧
  (∀ c d e, is_a c d → is_a d e → is_a c e) ∧
  (∀ c d, is_a c d → is_a d c → c = d) ∧
  (∀ c, is_a c Warning) ∧
  (∀ c, is_a Warning c → c = Warning).
Proof.
  split; [apply is_a_refl|]. split; [apply is_a_trans|]. split; [|split].
  - intros c d H1 H2.
    destruct (is_a_depth c d H1) as [?|L1]; [done|].
    destruct (is_a_depth d c H2) as [?|L2]; [done|]. lia.
  - apply is_a_Warning.
  - intros c H. inversion H as [|? p ? Hp]; [done|]. discriminate Hp.
Qed.

Lemma hierarchy_partial_order_witness :
  is_a DiskWarning OSWarning ∧ is_a OSWarning Warning ∧
  is_a DiskWarning Warning ∧ ¬ is_a OSWarning DiskWarning.
Proof.
  destruct hierarchy_partial_order as (_ & Htrans & Hanti & _ & _).
  assert (is_a DiskWarning OSWarning) as H1
    by (apply (is_a_extends _ OSWarning); [reflexivity|apply is_a_refl]).
  assert (is_a OSWarning Warning) as H2
    by (apply (is_a_extends _ Warning); [reflexivity|apply is_a_refl]).
  split; [exact H1|]. split; [exact H2|]. split.
  - exact (Htrans _ _ _ H1 H2).
  - intros H3. discriminate (Hanti _ _ H1 H3).
Defined.

(** X7: the code of an instance tells its family: it is an [OSWarning]
    exactly when its code lies in 73..77, a [FutureWarning] exactly when its
    code lies in 88..91, and always a [Warning] with a code in 72..91; this
    holds for classes derived with an empty body too. *)
Theorem code_tells_family (type : Constructor)
    (messageOrData : option MessageOrData) (data : option Data) (w : WarningRecord) :
  new type messageOrData data = Some w →
  (instanceof w OSWarning = true ↔ (73 ≤ code w ≤ 77)%N) ∧
  (instanceof w FutureWarning = true ↔ (88 ≤ code w ≤ 91)%N) ∧
  (instanceof w Warning = true ∧ (72 ≤ code w ≤ 91)%N).
Proof.
  intros H. destruct (new_class_code _ _ _ _ H) as (Hc & _ & Hk).
  rewrite !instanceof_is_a, Hc, Hk.
  destruct (class_code_family type) as (H1 & H2 & H3).
  split; [done|]. split; [done|]. split; [apply is_a_Warning|done].
Qed.

Lemma code_tells_family_witness :
  let type := Subclass 2 "QuotaWarning" DiskWarning in
  let w := Exception type "quota reached" None in
  new type (Some (ArgMessage "quota reached")) None = Some w ∧
  instanceof w OSWarning = true ∧ instanceof w FutureWarning = false ∧
  code w = 75%N.
Proof.
  intros type w.
  assert (new type (Some (ArgMessage "quota reached")) None = Some w) as H
    by reflexivity.
  split; [exact H|].
  destruct (code_tells_family _ _ _ _ H) as (H1 & H2 & _).
  split; [apply H1; vm_compute; split; discriminate|].
  split; [|reflexivity].
  destruct (instanceof w FutureWarning); [|reflexivity].
  destruct (proj1 H2 eq_refl) as [E _]. exfalso. apply E. reflexivity.
Defined.

Lemma exported_injective (c d : Constructor) :
  exported c = true → exported d = true → class_name c = class_name d → c = d.
Proof.
  intros Hc Hd H. destruct c; try discriminate Hc;
    destruct d; try discriminate Hd; try reflexivity; discriminate H.
Qed.

(** X8: among the ten exported classes, the code determines the class, and
    so does the name. *)
Theorem exported_code_and_name_injective (c d : Constructor) :
  exported c = true → exported d = true →
  (class_code c = class_code d → c = d) ∧
  (class_name c = class_name d → c = d).
Proof.
  intros Hc Hd. split; [|by apply exported_injective].
  intros H. destruct c; try discriminate Hc;
    destruct d; try discriminate Hd; try reflexivity; discriminate H.
Qed.

Lemma exported_code_and_name_injective_witness :
  exported DiskWarning = true ∧ exported MemoryWarning = true ∧
  class_code DiskWarning ≠ class_code MemoryWarning ∧
  class_name DiskWarning ≠ class_name MemoryWarning.
Proof.
  split; [reflexivity|]. split; [reflexivity|].
  destruct (exported_code_and_name_injective DiskWarning MemoryWarning eq_refl eq_refl)
    as [Hcode Hname].
  split; intros H; [apply Hcode in H|apply Hname in H]; discriminate H.
Defined.

(** *** Queries *)

Section queries.
Implicit Types (σ : State) (w : WarningRecord) (type : Filter).

Lemma filter_true (l : list WarningRecord) : filter (λ _, true) l = l.
Proof.
  induction l as [|w l IH]; [done|]. rewrite filter_cons_True by done. by rewrite IH.
Qed.

Lemma getWarnings_eq type σ :
  WarningManager.getWarnings type σ = alloc (filter (matches type) (stored σ)) σ.
Proof. destruct type; simpl; [|done|done]. by rewrite filter_true. Qed.

Lemma query_filter type σ : query type σ = filter (matches type) (stored σ).
Proof.
  unfold query. rewrite getWarnings_eq.
  pose proof (alloc_lookup (filter (matches type) (stored σ)) σ) as H.
  destruct (alloc _ σ) as [r σ']. simpl in H. by rewrite H.
Qed.

Lemma alloc_stored a σ : wf σ → stored (alloc a σ).2 = stored σ.
Proof.
  intros H. unfold stored. change (warnings (alloc a σ).2) with (warnings σ).
  by rewrite alloc_other.
Qed.

Lemma filter_in_ext (P Q : WarningRecord → Prop)
    `{!∀ w, Decision (P w), !∀ w, Decision (Q w)} (l : list WarningRecord) :
  Forall (λ w, P w ↔ Q w) l → filter P l = filter Q l.
Proof.
  induction 1 as [|w l Hw _ IH]; [done|].
  destruct (decide (P w)).
  - rewrite !filter_cons_True by tauto. by rewrite IH.
  - rewrite !filter_cons_False by tauto. by rewrite IH.
Qed.

End queries.

(** X9: queries only read: on a manager whose field [warnings] refers to an
    array, [getWarnings] (with any filter) and [groupWarnings] leave the
    stored records, the observers, the [completed] flag and the calls made so
    far as they were and change no array of the store; the array returned is
    a new one each time (never one returned before, never the manager's own),
    and asking again gives the same answer. *)
Theorem queries_are_read_only (σ : State) (type : Filter) :
  wf σ →
  let r := (WarningManager.getWarnings type σ).1 in
  let σ' := (WarningManager.getWarnings type σ).2 in
  let σg := (WarningManager.groupWarnings σ).2 in
  (stored σ' = stored σ ∧ warnings σ' = warnings σ ∧ observers σ' = observers σ ∧
   completed σ' = completed σ ∧ calls σ' = calls σ) ∧
  (stored σg = stored σ ∧ warnings σg = warnings σ ∧ observers σg = observers σ ∧
   completed σg = completed σ ∧ calls σg = calls σ) ∧
  (∀ r0, is_Some (arrays σ !! r0) → r ≠ r0 ∧ arrays σ' !! r0 = arrays σ !! r0) ∧
  (∀ type', query type' σ' = query type' σ ∧
            (WarningManager.getWarnings type' σ').1 ≠ r) ∧
  (WarningManager.groupWarnings σ').1 = (WarningManager.groupWarnings σ).1.
Proof.
  intros Hwf r σ' σg. subst r σ' σg. rewrite groupWarnings_state, getWarnings_eq.
  set (a := filter (matches type) (stored σ)).
  split; [by rewrite alloc_stored|]. split; [by rewrite alloc_stored|].
  split; [|split].
  - intros r0 Hr0. split; [|by apply alloc_other].
    intros E. rewrite <- E, alloc_fresh in Hr0. by destruct Hr0.
  - intros type'. rewrite !query_filter, alloc_stored by done. split; [done|].
    rewrite getWarnings_eq. intros E.
    pose proof (alloc_fresh (filter (matches type') (stored (alloc a σ).2))
                  (alloc a σ).2) as F.
    rewrite E, alloc_lookup in F. discriminate F.
  - rewrite !groupWarnings_result. by rewrite alloc_stored.
Qed.

Lemma queries_are_read_only_witness :
  wf example_manager ∧
  let r := (WarningManager.getWarnings (FString "disk") example_manager).1 in
  let σ' := (WarningManager.getWarnings (FString "disk") example_manager).2 in
  stored σ' = stored example_manager ∧
  r ≠ warnings example_manager ∧
  (WarningManager.getWarnings (FString "disk") σ').1 ≠ r.
Proof.
  assert (wf example_manager) as Hwf by (vm_compute; eexists; reflexivity).
  split; [exact Hwf|].
  destruct (queries_are_read_only example_manager (FString "disk") Hwf)
    as ((Hs & _) & _ & Hold & Hagain & _).
  split; [exact Hs|]. split.
  - apply (Hold (warnings example_manager) Hwf).
  - apply (Hagain (FString "disk")).
Defined.

(** X10: on a manager whose field [warnings] refers to an array, a run of
    record calls of any kind appends one record for each call that is well
    formed, in the order of the calls, and nothing for the others; [length]
    grows by the number of well-formed calls. *)
Theorem run_warn_counts_well_formed (σ : State) (cs : list (WarnArg * TypeArg)) :
  wf σ →
  let made := filter (λ c, well_formed_call c.1 c.2 = true) cs in
  stored (run (warn_ops cs) σ) = stored σ ++ ((λ c, recorded c.1 c.2) <$> made) ∧
  WarningManager.length (run (warn_ops cs) σ) = WarningManager.length σ + length made.
Proof.
  intros Hwf made. subst made.
  assert (stored (run (warn_ops cs) σ)
          = stored σ ++ ((λ c, recorded c.1 c.2) <$>
                           filter (λ c, well_formed_call c.1 c.2 = true) cs)) as H.
  { revert σ Hwf. induction cs as [|[a t] cs IH]; intros σ Hwf; simpl.
    - by rewrite app_nil_r.
    - rewrite warn_cases. destruct (well_formed_call a t) eqn:E.
      + rewrite filter_cons_True by done. rewrite IH by (by apply add_wf).
        rewrite add_stored by done. by rewrite <- app_assoc.
      + rewrite filter_cons_False by (simpl; congruence). by apply IH. }
  split; [exact H|]. unfold WarningManager.length.
  by rewrite H, length_app, length_fmap.
Qed.

Lemma run_warn_counts_well_formed_witness :
  wf example_manager ∧
  WarningManager.length
    (run (warn_ops [(AMessage "dropped", TFalsy); (AMessage "kept", TUndefined)])
         example_manager) = 4.
Proof.
  assert (wf example_manager) as Hwf by (vm_compute; eexists; reflexivity).
  split; [exact Hwf|].
  exact (proj2 (run_warn_counts_well_formed example_manager
                  [(AMessage "dropped", TFalsy); (AMessage "kept", TUndefined)] Hwf)).
Defined.

(** X11: filtering by the class [Warning] returns all stored records, as a
    query without a filter does, because every class derives from
    [Warning]. *)
Theorem getWarnings_Warning_is_all (σ : State) :
  query (FClass Warning) σ = stored σ ∧ query (FClass Warning) σ = query FNone σ.
Proof.
  assert (∀ l : list WarningRecord, filter (λ w, instanceof w Warning) l = l) as H.
  { induction l as [|w l IH]; [done|].
    rewrite filter_cons_True; [by rewrite IH|].
    apply Is_true_true, instanceof_is_a, is_a_Warning. }
  rewrite !query_filter. simpl. by rewrite filter_true, H.
Qed.

(** X12: class filters narrow: when [V] is [U] or derives from it, the
    records [getWarnings(V)] returns are those of [getWarnings(U)] that are
    instances of [V], in the same order. *)
Theorem class_filter_narrows (σ : State) (V U : Constructor) :
  is_a V U →
  query (FClass V) σ = filter (λ w, instanceof w V) (query (FClass U) σ) ∧
  query (FClass V) σ `sublist_of` query (FClass U) σ.
Proof.
  intros HVU. rewrite !query_filter. simpl.
  assert (filter (λ w, instanceof w V) (stored σ)
          = filter (λ w, instanceof w V) (filter (λ w, instanceof w U) (stored σ))) as E.
  { rewrite list_filter_filter. apply list_filter_iff. intros w.
    rewrite !Is_true_true, !instanceof_is_a. split; [|tauto].
    intros H. split; [done|]. by eapply is_a_trans. }
  split; [done|]. rewrite E. apply sublist_filter.
Qed.

Lemma class_filter_narrows_witness :
  is_a DiskWarning OSWarning ∧
  query (FClass DiskWarning) mixed_manager
    `sublist_of` query (FClass OSWarning) mixed_manager.
Proof.
  assert (is_a DiskWarning OSWarning) as H
    by (apply (is_a_extends _ OSWarning); [reflexivity|apply is_a_refl]).
  split; [exact H|].
  exact (proj2 (class_filter_narrows mixed_manager DiskWarning OSWarning H)).
Defined.

(** X13: string filters narrow: when [s] occurs in [t], the records
    [getWarnings(t)] returns are those of [getWarnings(s)] whose message
    contains [t], in the same order. *)
Theorem string_filter_narrows (σ : State) (s t : string) :
  contains t s →
  query (FString t) σ = filter (λ w, JS.includes (message w) t) (query (FString s) σ) ∧
  query (FString t) σ `sublist_of` query (FString s) σ.
Proof.
  intros Hts. rewrite !query_filter. simpl.
  assert (filter (λ w, JS.includes (message w) t) (stored σ)
          = filter (λ w, JS.includes (message w) t)
              (filter (λ w, JS.includes (message w) s) (stored σ))) as E.
  { rewrite list_filter_filter. apply list_filter_iff. intros w.
    rewrite !Is_true_true, !includes_contains. split; [|tauto].
    intros H. split; [done|]. by eapply contains_trans. }
  split; [done|]. rewrite E. apply sublist_filter.
Qed.

Lemma string_filter_narrows_witness :
  contains "disk low again" "disk" ∧
  query (FString "disk low again") example_manager
    `sublist_of` query (FString "disk") example_manager.
Proof.
  assert (contains "disk low again" "disk") as H
    by (exists ""%string, " low again"%string; reflexivity).
  split; [exact H|].
  exact (proj2 (string_filter_narrows example_manager "disk" "disk low again" H)).
Defined.

(** X14: recording then querying: on a manager whose field [warnings] refers
    to an array, after a well-formed record call every query returns what it
    returned before, followed by the new record when the filter keeps it;
    querying by the record's own message, or by its own class, always finds
    it, last. *)
Theorem warn_then_query (σ : State) (warning : WarnArg) (t : TypeArg) (type : Filter) :
  wf σ → well_formed_call warning t = true →
  let σ' := WarningManager.warn warning t σ in
  let w := recorded warning t in
  query type σ' = query type σ ++ (if matches type w then [w] else []) ∧
  query (FString (message w)) σ' = query (FString (message w)) σ ++ [w] ∧
  query (FClass (class w)) σ' = query (FClass (class w)) σ ++ [w].
Proof.
  intros Hwf Hc σ' w. subst σ'. rewrite warn_cases, Hc. fold w.
  assert (∀ type, query type (WarningManager.add w σ)
                  = query type σ ++ (if matches type w then [w] else [])) as H.
  { intros f. rewrite !query_filter, add_stored, filter_app by done. f_equal.
    destruct (matches f w) eqn:E.
    - rewrite filter_cons_True; [done|]. by apply Is_true_true.
    - rewrite filter_cons_False; [done|]. by apply Is_true_false. }
  split; [apply H|]. split.
  - rewrite H. simpl.
    by rewrite (proj2 (includes_contains (message w) (message w)) (contains_refl _)).
  - rewrite H. simpl.
    by rewrite (proj2 (instanceof_is_a w (class w)) (is_a_refl _)).
Qed.

Lemma warn_then_query_witness :
  wf example_manager ∧
  well_formed_call (AMessage "memory low") (TClass MemoryWarning) = true ∧
  let σ' := WarningManager.warn (AMessage "memory low") (TClass MemoryWarning)
              example_manager in
  query (FClass DiskWarning) σ' = query (FClass DiskWarning) example_manager ∧
  query (FClass OSWarning) σ'
  = query (FClass OSWarning) example_manager ++ [new_message MemoryWarning "memory low"].
Proof.
  assert (wf example_manager) as Hwf by (vm_compute; eexists; reflexivity).
  split; [exact Hwf|]. split; [reflexivity|]. intros σ'. split.
  - destruct (warn_then_query example_manager (AMessage "memory low")
                (TClass MemoryWarning) (FClass DiskWarning) Hwf eq_refl) as [H _].
    exact (eq_trans H (app_nil_r _)).
  - exact (proj1 (warn_then_query example_manager (AMessage "memory low")
                    (TClass MemoryWarning) (FClass OSWarning) Hwf eq_refl)).
Defined.

(** X15: recording then grouping: on a manager whose field [warnings] refers
    to an array, after a well-formed record call the grouping is the earlier
    grouping with the new record added at the end of the group of its name (a
    new group when the name was absent); the other groups are unchanged. *)
Theorem warn_then_groupWarnings (σ : State) (warning : WarnArg) (t : TypeArg) :
  wf σ → well_formed_call warning t = true →
  let σ' := WarningManager.warn warning t σ in
  let w := recorded warning t in
  let grouped := (WarningManager.groupWarnings σ).1 in
  let grouped' := (WarningManager.groupWarnings σ').1 in
  grouped' = WarningManager.group_step grouped w ∧
  grouped' !! name w = Some (default [] (grouped !! name w) ++ [w]) ∧
  (∀ k, k ≠ name w → grouped' !! k = grouped !! k).
Proof.
  intros Hwf Hc σ' w grouped grouped'. subst σ' grouped grouped'.
  rewrite warn_cases, Hc. fold w.
  rewrite !groupWarnings_result, add_stored, foldl_snoc by done.
  split; [done|]. rewrite group_step_insert. split.
  - by rewrite lookup_insert_eq.
  - intros k Hk. by rewrite lookup_insert_ne.
Qed.

Lemma warn_then_groupWarnings_witness :
  wf example_manager ∧
  well_formed_call (AMessage "memory low") (TClass MemoryWarning) = true ∧
  let σ' := WarningManager.warn (AMessage "memory low") (TClass MemoryWarning)
              example_manager in
  (WarningManager.groupWarnings σ').1 !! "MemoryWarning"
  = Some [new_message MemoryWarning "memory low"] ∧
  (WarningManager.groupWarnings σ').1 !! "DiskWarning"
  = (WarningManager.groupWarnings example_manager).1 !! "DiskWarning".
Proof.
  assert (wf example_manager) as Hwf by (vm_compute; eexists; reflexivity).
  split; [exact Hwf|]. split; [reflexivity|]. intros σ'.
  destruct (warn_then_groupWarnings example_manager (AMessage "memory low")
              (TClass MemoryWarning) Hwf eq_refl) as (_ & Hnew & Hother).
  split.
  - exact Hnew.
  - apply (Hother "DiskWarning"%string). discriminate.
Defined.

(** X16: grouping is by the exact class, filtering by the family: when the
    stored records are instances of exported classes carrying the name of
    their class, the group under the name of an exported class [c] holds the
    records whose class is exactly [c], and they are among those
    [getWarnings(c)] returns, in the same order. *)
Theorem group_is_exact_class (σ : State) (c : Constructor) :
  exported c = true →
  Forall (λ w, exported (class w) = true ∧ name w = class_name (class w)) (stored σ) →
  let group := default [] ((WarningManager.groupWarnings σ).1 !! class_name c) in
  group = filter (λ w, class w = c) (stored σ) ∧
  group `sublist_of` query (FClass c) σ.
Proof.
  intros Hc Hall group. subst group. rewrite groupWarnings_result, group_lookup.
  assert (filter (λ w, name w = class_name c) (stored σ)
          = filter (λ w, class w = c) (stored σ)) as E.
  { apply filter_in_ext. eapply Forall_impl; [exact Hall|]. simpl.
    intros w [Hw Hn]. rewrite Hn. split; [|by intros ->].
    by apply exported_injective. }
  rewrite E.
  assert (default [] match filter (λ w, class w = c) (stored σ) with
                     | [] => None
                     | ws' => Some ws'
                     end = filter (λ w, class w = c) (stored σ)) as ->
    by (by destruct (filter (λ w, class w = c) (stored σ))).
  split; [done|]. rewrite query_filter. simpl.
  assert (filter (λ w, class w = c) (stored σ)
          = filter (λ w, class w = c) (filter (λ w, instanceof w c) (stored σ))) as ->.
  { rewrite list_filter_filter. apply list_filter_iff. intros w. split; [|tauto].
    intros <-. split; [done|]. apply Is_true_true, instanceof_is_a, is_a_refl. }
  apply sublist_filter.
Qed.

Lemma group_is_exact_class_witness :
  exported Warning = true ∧
  Forall (λ w, exported (class w) = true ∧ name w = class_name (class w))
         (stored mixed_manager) ∧
  default [] ((WarningManager.groupWarnings mixed_manager).1 !! "Warning")
  = filter (λ w, class w = Warning) (stored mixed_manager).
Proof.
  assert (Forall (λ w, exported (class w) = true ∧ name w = class_name (class w))
                 (stored mixed_manager)) as Hall
    by (vm_compute; repeat constructor).
  split; [reflexivity|]. split; [exact Hall|].
  exact (proj1 (group_is_exact_class mixed_manager Warning eq_refl Hall)).
Defined.
